(** * YDBGo: the variadic parameter-list test routine

    A shallow embedding of [YdB_vArIaDiC_pLiSt_TeSt.c], the C routine the
    yottadb Go package drives to check that a variadic parameter list
    crosses the language boundary intact.

    The routine is straight-line C with early returns, three [va_arg]
    pulls, two descriptor dereferences, [memcmp] and [printf].  It is
    embedded in a small state-and-fault monad over
      - the variadic save area (the 8-byte argument words of an LP64
        calling convention),
      - a heap of buffer descriptors and of bytes,
      - the text written to stdout, and
      - a log of the memory accesses performed,
    so that statements about what is read, written and printed can be made
    about the code itself. *)

From Stdlib Require Import ZArith Lia Ascii DecimalString HexadecimalString.
From stdpp Require Import gmap strings.

Local Open Scope Z_scope.

(** ** C integer types (LP64) *)

Module CInt.

Definition INT_MAX : Z := 2 ^ 31 - 1.
Definition INT_MIN : Z := - 2 ^ 31.

(** Low 32 bits of a word, read as [unsigned int]. *)
Definition to_uint32 (w : Z) : Z := Z.land w (Z.ones 32).

(** Low 32 bits of a word, read as two's-complement [int]. *)
Definition to_int32 (w : Z) : Z :=
  let u := to_uint32 w in
  if u <? 2 ^ 31 then u else u - 2 ^ 32.

(** A value stored in a 64-bit word. *)
Definition to_uint64 (z : Z) : Z := Z.land z (Z.ones 64).

Definition int_range (z : Z) : Prop := INT_MIN <= z <= INT_MAX.
Definition word_range (w : Z) : Prop := 0 <= w < 2 ^ 64.

End CInt.
Import CInt.

(** ** Text *)

Definition NUL : ascii := "000"%char.
Definition LF : ascii := "010"%char.
Definition nl : string := String LF "".

(** Escape processing of a C string literal: the source text [\n] stands
    for a line feed.  The literals of the routine use no other escape. *)
Fixpoint c_lit (s : string) : string :=
  match s with
  | String "\" (String "n" rest) => String LF (c_lit rest)
  | String c rest => String c (c_lit rest)
  | EmptyString => EmptyString
  end.

(** [strlen] of a literal. *)
Definition strlen (s : string) : Z := Z.of_nat (String.length s).

(** [%d]: signed decimal. *)
Definition dec (z : Z) : string :=
  DecimalString.NilZero.string_of_int (Z.to_int z).

(** [%016lx]: lower-case hexadecimal, zero-padded to 16 digits. *)
Fixpoint zeros (n : nat) : string :=
  match n with O => "" | S n' => String "0" (zeros n') end.

Definition hex (z : Z) : string :=
  HexadecimalString.NilZero.string_of_uint (N.to_hex_uint (Z.to_N z)).

Definition hex016 (z : Z) : string :=
  let h := hex z in zeros (16 - String.length h) +:+ h.

(** ** Data model *)

(** Modelled from the spec: [ydb_buffer_t] is declared in libyottadb.h, which
    belongs to the database engine and is not among the sources.  The spec's
    Buffer Descriptor has an address, an allocated length and a used length;
    the field names are the ones the routine dereferences. *)
Record ydb_buffer_t : Type := mk_buffer {
  len_alloc : Z;   (* unsigned int *)
  len_used  : Z;   (* unsigned int *)
  buf_addr  : Z    (* char * *)
}.

Inductive field : Type := F_len_alloc | F_len_used | F_buf_addr.

Definition get_field (d : ydb_buffer_t) (f : field) : Z :=
  match f with
  | F_len_alloc => len_alloc d
  | F_len_used => len_used d
  | F_buf_addr => buf_addr d
  end.

(** The heap: descriptors by address, bytes by address. *)
Record heap : Type := mk_heap {
  descs : gmap Z ydb_buffer_t;
  bytes : gmap Z ascii
}.

(** What the routine did to memory, in program order. *)
Inductive event : Type :=
| EvVaArg (i : nat)            (* slot [i] of the save area fetched by va_arg *)
| EvLoad (p : Z) (f : field)   (* [p->f] loaded *)
| EvMemcmp (a : Z) (n : Z)     (* memcmp ran over [n] bytes at [a] *)
| EvPrintStr (a : Z) (n : Z).  (* printf %.*s read at most [n] bytes at [a] *)

Record state : Type := mk_state {
  st_va    : list Z;      (* variadic argument words, in call order *)
  st_heap  : heap;
  st_out   : string;      (* stdout *)
  st_trace : list event
}.

Definition log (e : event) (s : state) : state :=
  mk_state (st_va s) (st_heap s) (st_out s) (st_trace s ++ [e]).

(** ** The monad: state passing, with [Fault] for undefined behaviour *)

Inductive outcome (A : Type) : Type :=
| Normal (a : A)
| Fault.
Arguments Normal {A} a.
Arguments Fault {A}.

Definition M (A : Type) : Type := state -> outcome A * state.

Definition ret {A} (a : A) : M A := fun s => (Normal a, s).

Definition bind {A B} (c : M A) (k : A -> M B) : M B :=
  fun s =>
    match c s with
    | (Normal a, s') => k a s'
    | (Fault, s') => (Fault, s')
    end.

Declare Scope c_scope.
Delimit Scope c_scope with C.
Notation "'let*' x ':=' c 'in' k" := (bind c (fun x => k))
  (at level 10, x pattern, c at level 100, k at level 200) : c_scope.
Notation "c ;; k" := (bind c (fun _ => k))
  (at level 100, k at level 200, right associativity) : c_scope.
Local Open Scope c_scope.

(** [if (e)] on a C integer. *)
Definition c_true (z : Z) : bool := negb (z =? 0).

(** [a || b]: the right operand runs only when the left one is false. *)
Definition c_or (a b : M bool) : M bool :=
  let* x := a in if x then ret true else b.

(** ** <stdarg.h> *)

(** A [va_list] is a cursor into the save area. *)
Abbreviation va_list := nat (only parsing).

Definition va_start : M va_list := ret 0%nat.

Definition va_arg_word (var : va_list) : M (Z * va_list) :=
  fun s =>
    match st_va s !! var with
    | Some w => (Normal (w, S var), log (EvVaArg var) s)
    | None => (Fault, s)
    end.

(** [va_arg(var, int)]: the low half of the next word. *)
Definition va_arg_int (var : va_list) : M (Z * va_list) :=
  let* (w, var') := va_arg_word var in ret (to_int32 w, var').

(** [va_arg(var, ydb_buffer_t * )]: the next word, as an address. *)
Definition va_arg_ptr (var : va_list) : M (Z * va_list) :=
  va_arg_word var.

(** ** Memory reads *)

(** [p->f] *)
Definition load (p : Z) (f : field) : M Z :=
  fun s =>
    match descs (st_heap s) !! p with
    | Some d => (Normal (get_field d f), log (EvLoad p f) s)
    | None => (Fault, s)
    end.

(** The [n] bytes at [a], if all of them are mapped. *)
Fixpoint read_bytes (b : gmap Z ascii) (a : Z) (n : nat) : option string :=
  match n with
  | O => Some ""
  | S n' =>
      match b !! a, read_bytes b (a + 1) n' with
      | Some c, Some rest => Some (String c rest)
      | _, _ => None
      end
  end.

(** The string at [a] as [%.*s] prints it: at most [n] bytes, ending early
    at a NUL byte. *)
Fixpoint read_str (b : gmap Z ascii) (a : Z) (n : nat) : option string :=
  match n with
  | O => Some ""
  | S n' =>
      match b !! a with
      | Some c =>
          if Ascii.eqb c NUL then Some ""
          else option_map (String c) (read_str b (a + 1) n')
      | None => None
      end
  end.

(** Three-way comparison of two byte strings of equal length, as unsigned
    bytes. *)
Fixpoint compare_bytes (x y : string) : Z :=
  match x, y with
  | String c x', String d y' =>
      if Ascii.eqb c d then compare_bytes x' y'
      else if (nat_of_ascii c <? nat_of_ascii d)%nat then -1 else 1
  | _, _ => 0
  end.

(** The first [n] bytes of the array a literal denotes (its characters
    followed by the terminating NUL), if the array is that long. *)
Fixpoint lit_bytes (lit : string) (n : nat) : option string :=
  match n with
  | O => Some ""
  | S n' =>
      match lit with
      | String c rest => option_map (String c) (lit_bytes rest n')
      | EmptyString =>
          match n' with O => Some (String NUL "") | S _ => None end
      end
  end.

(** [memcmp(lit, a, n)] with a string literal on the left and heap bytes on
    the right.  All [n] bytes of both operands must be readable. *)
Definition memcmp (lit : string) (a n : Z) : M Z :=
  fun s =>
    match lit_bytes lit (Z.to_nat n),
          read_bytes (bytes (st_heap s)) a (Z.to_nat n) with
    | Some x, Some y => (Normal (compare_bytes x y), log (EvMemcmp a n) s)
    | _, _ => (Fault, s)
    end.

(** ** <stdio.h>: printf *)

(** The arguments the routine hands to [printf], by their C type. *)
Inductive parg : Type :=
| AInt (z : Z)        (* int *)
| AUInt (z : Z)       (* unsigned int *)
| AULong (z : Z)      (* unsigned long *)
| ALit (s : string)   (* char * to a string literal *)
| AChars (a : Z).     (* char * into the heap *)

(** The conversions the routine's format strings use. *)
Inductive directive : Type :=
| DChar (c : ascii)
| DInt                (* %d *)
| DStr                (* %s *)
| DPrecStr            (* %.*s *)
| DHex016             (* %016lx *)
| DBad.

Definition conversion (spec : string) : directive :=
  if String.eqb spec "d" then DInt
  else if String.eqb spec "s" then DStr
  else if String.eqb spec ".*s" then DPrecStr
  else if String.eqb spec "016lx" then DHex016
  else if String.eqb spec "%" then DChar "%"
  else DBad.

Definition is_conv_letter (c : ascii) : bool :=
  Ascii.eqb c "d" || Ascii.eqb c "s" || Ascii.eqb c "x" || Ascii.eqb c "%".

(** Split a format string into directives.  [pending] holds the text of a
    conversion specification that has been opened by [%] and not yet
    closed by its conversion letter. *)
Fixpoint parse_fmt (pending : option string) (fmt : string) : list directive :=
  match fmt with
  | EmptyString =>
      match pending with Some _ => [DBad] | None => [] end
  | String c rest =>
      match pending with
      | None =>
          if Ascii.eqb c "%" then parse_fmt (Some "") rest
          else DChar c :: parse_fmt None rest
      | Some sp =>
          let sp' := sp +:+ String c "" in
          if is_conv_letter c then conversion sp' :: parse_fmt None rest
          else parse_fmt (Some sp') rest
      end
  end.

(** The value [printf] obtains when it fetches an [int].  An [unsigned int]
    passed in that position is defined only when it is representable as
    [int] (ISO C 7.16.1.1); the routine passes [len_used] this way. *)
Definition as_int (a : parg) : option Z :=
  match a with
  | AInt z => Some z
  | AUInt z => if z <=? INT_MAX then Some z else None
  | _ => None
  end.

Definition prepend (txt : string) (evs : list event)
    (r : option (string * list event)) : option (string * list event) :=
  match r with
  | Some (t, e) => Some (txt +:+ t, evs ++ e)
  | None => None
  end.

(** Render the directives against the arguments.  [None] is undefined
    behaviour: a missing or ill-typed argument, or an unreadable byte.  A
    negative precision (read up to the NUL, however far) is not modelled:
    [as_int] of the [unsigned int] the routine passes is never negative. *)
Fixpoint format (b : gmap Z ascii) (ds : list directive) (args : list parg)
    : option (string * list event) :=
  match ds with
  | [] => Some ("", [])
  | DChar c :: ds' => prepend (String c "") [] (format b ds' args)
  | DInt :: ds' =>
      match args with
      | a :: args' =>
          match as_int a with
          | Some z => prepend (dec z) [] (format b ds' args')
          | None => None
          end
      | _ => None
      end
  | DStr :: ds' =>
      match args with
      | ALit s :: args' => prepend s [] (format b ds' args')
      | _ => None
      end
  | DPrecStr :: ds' =>
      match args with
      | a :: AChars p :: args' =>
          match as_int a with
          | Some n =>
              if n <? 0 then None
              else
                match read_str b p (Z.to_nat n) with
                | Some txt => prepend txt [EvPrintStr p n] (format b ds' args')
                | None => None
                end
          | None => None
          end
      | _ => None
      end
  | DHex016 :: ds' =>
      match args with
      | AULong z :: args' => prepend (hex016 z) [] (format b ds' args')
      | _ => None
      end
  | DBad :: _ => None
  end.

Definition printed (txt : string) (evs : list event) (s : state) : state :=
  mk_state (st_va s) (st_heap s) (st_out s +:+ txt) (st_trace s ++ evs).

Definition printf (fmt : string) (args : list parg) : M unit :=
  fun s =>
    match format (bytes (st_heap s)) (parse_fmt None fmt) args with
    | Some (txt, evs) => (Normal tt, printed txt evs s)
    | None => (Fault, s)
    end.

(** ** The routine *)

Definition expectedargs : Z := 3.
Definition expectedval : Z := 42.
Definition expectedbuf1 : string := "Buffer one".
Definition expectedbuf2 : string := "Buffer two".
Definition debugFlag : Z := 0.

(** [if (e) stmt] with no [else]. *)
Definition when (b : bool) (c : M unit) : M unit :=
  if b then c else ret tt.

(** [int YdB_vArIaDiC_pLiSt_TeSt(int argcnt, ...)].  Operands of one call are
    evaluated left to right. *)
Definition YdB_vArIaDiC_pLiSt_TeSt (argcnt : Z) : M Z :=
  if negb (argcnt =? expectedargs) then
    printf (c_lit "VPLST: FAIL test - Argument count is wrong - expected arg cont %d but received %d\n")
           [AInt expectedargs; AInt argcnt] ;;
    ret 1
  else
    let* var := va_start in
    let* (num, var) := va_arg_int var in
    if negb (expectedval =? num) then
      printf (c_lit "VPLST: FAIL test - First parameter is wrong - expected %d but received %d\n")
             [AInt expectedval; AInt num] ;;
      ret 1
    else
      let* (buft1, var) := va_arg_ptr var in
      when (c_true debugFlag)
        (printf (c_lit "VPLST:\n") [] ;;
         printf (c_lit "VPLST: Address of buft1: 0x%016lx\n") [AULong buft1] ;;
         (let* a := load buft1 F_buf_addr in
          printf (c_lit "VPLST:   buf_addr:       0x%016lx\n") [AULong a]) ;;
         (let* n := load buft1 F_len_alloc in
          printf (c_lit "VPLST:   len_alloc:      %d\n") [AUInt n]) ;;
         (let* n := load buft1 F_len_used in
          printf (c_lit "VPLST:   len_used:       %d\n") [AUInt n])) ;;
      let* bad :=
        c_or (let* n := load buft1 F_len_used in
              ret (negb (n =? strlen expectedbuf1)))
             (let* a := load buft1 F_buf_addr in
              let* n := load buft1 F_len_used in
              let* r := memcmp expectedbuf1 a n in
              ret (negb (0 =? r))) in
      if bad then
        (let* n := load buft1 F_len_used in
         let* a := load buft1 F_buf_addr in
         printf (c_lit "VPLST: FAIL test - Buffer1 content is wrong - expected %s but received %.*s\n")
                [ALit expectedbuf1; AUInt n; AChars a]) ;;
        ret 1
      else
        when (c_true debugFlag)
          (let* n := load buft1 F_len_used in
           let* a := load buft1 F_buf_addr in
           printf (c_lit "VPLST:   value:          %.*s\n") [AUInt n; AChars a]) ;;
        when (c_true debugFlag) (printf (c_lit "VPLST:\n") []) ;;
        let* (buft2, var) := va_arg_ptr var in
        when (c_true debugFlag)
          (printf (c_lit "VPLST: Address of buft2: 0x%016lx\n") [AULong buft2] ;;
           (let* a := load buft2 F_buf_addr in
            printf (c_lit "VPLST:   buf_addr:       0x%016lx\n") [AULong a]) ;;
           (let* n := load buft2 F_len_alloc in
            printf (c_lit "VPLST:   len_alloc:      %d\n") [AUInt n]) ;;
           (let* n := load buft2 F_len_used in
            printf (c_lit "VPLST:   len_used:       %d\n") [AUInt n])) ;;
        let* bad :=
          c_or (let* n := load buft2 F_len_used in
                ret (negb (n =? strlen expectedbuf2)))
               (let* a := load buft2 F_buf_addr in
                let* n := load buft2 F_len_used in
                let* r := memcmp expectedbuf2 a n in
                ret (negb (0 =? r))) in
        if bad then
          (let* n := load buft2 F_len_used in
           let* a := load buft2 F_buf_addr in
           printf (c_lit "VPLST: FAIL test - Buffer2 content is wrong - expected %s but received %.*s\n")
                  [ALit expectedbuf2; AUInt n; AChars a]) ;;
          ret 1
        else
          when (c_true debugFlag)
            (let* n := load buft2 F_len_used in
             let* a := load buft2 F_buf_addr in
             printf (c_lit "VPLST:   value:          %.*s\n") [AUInt n; AChars a]) ;;
          when (c_true debugFlag) (printf (c_lit "VPLST:\n") []) ;;
          ret 0.

(** ** Building test heaps *)

(** Store the characters of [txt] at [a], [a+1], ... *)
Fixpoint store_string (a : Z) (txt : string) (b : gmap Z ascii) : gmap Z ascii :=
  match txt with
  | EmptyString => b
  | String c rest => <[a := c]> (store_string (a + 1) rest b)
  end.

(** The call the Go test makes: expectedval, then two descriptors.  The
    descriptors live at [0x1000] and [0x1010], their bytes at [0x2000] and
    [0x2040]. *)
Definition test_heap (d1 d2 : ydb_buffer_t) (txt1 txt2 : string) : heap :=
  mk_heap (<[4096 := d1]> (<[4112 := d2]> ∅))
          (store_string (buf_addr d1) txt1 (store_string (buf_addr d2) txt2 ∅)).

Definition test_call (num : Z) (d1 d2 : ydb_buffer_t) (txt1 txt2 : string) : state :=
  mk_state [to_uint64 num; 4096; 4112] (test_heap d1 d2 txt1 txt2) "" [].

Definition go_test_state : state :=
  test_call 42 (mk_buffer 64 10 8192) (mk_buffer 64 10 8256)
            "Buffer one" "Buffer two".

(** ** Well-formed calls *)

(** The descriptor at [p] has used length [n], and the bytes at its address
    start with [txt]. *)
Definition holds (h : heap) (p : Z) (n : Z) (txt : string) : Prop :=
  exists d,
    descs h !! p = Some d /\ len_used d = n /\
    read_bytes (bytes h) (buf_addr d) (String.length txt) = Some txt.

(** [p] points to a descriptor whose used bytes are all readable, and whose
    used length [printf] can take as a precision. *)
Definition valid_buffer (h : heap) (p : Z) : Prop :=
  exists d,
    descs h !! p = Some d /\ 0 <= len_used d <= INT_MAX /\
    is_Some (read_bytes (bytes h) (buf_addr d) (Z.to_nat (len_used d))).

(** A call that honours the routine's calling signature: when it announces
    [expectedargs] arguments, it passes an int and two valid descriptors.
    Nothing is asked of a call that announces another count. *)
Definition valid_call (argcnt : Z) (s : state) : Prop :=
  argcnt = expectedargs ->
  exists w p1 p2 rest,
    st_va s = w :: p1 :: p2 :: rest /\
    valid_buffer (st_heap s) p1 /\ valid_buffer (st_heap s) p2.

(** ** The diagnostics *)

Definition count_diag (argcnt : Z) : string :=
  "VPLST: FAIL test - Argument count is wrong - expected arg cont 3 but received "
    +:+ dec argcnt +:+ nl.

Definition value_diag (num : Z) : string :=
  "VPLST: FAIL test - First parameter is wrong - expected 42 but received "
    +:+ dec num +:+ nl.

Definition buffer1_diag (received : string) : string :=
  "VPLST: FAIL test - Buffer1 content is wrong - expected Buffer one but received "
    +:+ received +:+ nl.

Definition buffer2_diag (received : string) : string :=
  "VPLST: FAIL test - Buffer2 content is wrong - expected Buffer two but received "
    +:+ received +:+ nl.

(** The line the routine owes a failing call: the diagnostic of the first
    check, in the routine's order, that the call fails.  It names what was
    expected and what the call passed; for a buffer, the received text is
    the used bytes as [%.*s] shows them. *)
Inductive diagnostic (argcnt : Z) (s : state) : string -> Prop :=
| diag_count :
    argcnt <> expectedargs ->
    diagnostic argcnt s (count_diag argcnt)
| diag_value w :
    argcnt = expectedargs ->
    st_va s !! 0%nat = Some w ->
    to_int32 w <> expectedval ->
    diagnostic argcnt s (value_diag (to_int32 w))
| diag_buffer1 w p d received :
    argcnt = expectedargs ->
    st_va s !! 0%nat = Some w ->
    to_int32 w = expectedval ->
    st_va s !! 1%nat = Some p ->
    descs (st_heap s) !! p = Some d ->
    read_str (bytes (st_heap s)) (buf_addr d) (Z.to_nat (len_used d)) = Some received ->
    ~ holds (st_heap s) p (strlen expectedbuf1) expectedbuf1 ->
    diagnostic argcnt s (buffer1_diag received)
| diag_buffer2 w p1 p d received :
    argcnt = expectedargs ->
    st_va s !! 0%nat = Some w ->
    to_int32 w = expectedval ->
    st_va s !! 1%nat = Some p1 ->
    holds (st_heap s) p1 (strlen expectedbuf1) expectedbuf1 ->
    st_va s !! 2%nat = Some p ->
    descs (st_heap s) !! p = Some d ->
    read_str (bytes (st_heap s)) (buf_addr d) (Z.to_nat (len_used d)) = Some received ->
    ~ holds (st_heap s) p (strlen expectedbuf2) expectedbuf2 ->
    diagnostic argcnt s (buffer2_diag received).

(** The call the routine accepts: three arguments announced, the integer
    42 and the two expected buffers. *)
Definition expected_call (argcnt : Z) (s : state) : Prop :=
  argcnt = expectedargs /\
  exists w p1 p2,
    st_va s !! 0%nat = Some w /\ to_int32 w = expectedval /\
    st_va s !! 1%nat = Some p1 /\
    holds (st_heap s) p1 (strlen expectedbuf1) expectedbuf1 /\
    st_va s !! 2%nat = Some p2 /\
    holds (st_heap s) p2 (strlen expectedbuf2) expectedbuf2.

(** What [%.*s] shows of a byte string: the part before its first NUL. *)
Fixpoint cut_nul (txt : string) : string :=
  match txt with
  | EmptyString => EmptyString
  | String c rest => if Ascii.eqb c NUL then EmptyString else String c (cut_nul rest)
  end.

Fixpoint str_take (n : nat) (txt : string) : string :=
  match n, txt with
  | S n', String c rest => String c (str_take n' rest)
  | _, _ => EmptyString
  end.

(** ** The parameter list builder and the generic consumer *)

Module PList.

(** Modelled from the spec: the Parameter List Builder ([create], [append],
    [reset], [asRawHandle]) is part of the Go package and is not among the
    sources.  A slot is a discriminated value, an integer or a reference to
    a buffer descriptor; slots are kept in append order, at most
    [capacity] of them; the raw handle exposes the count and the untyped
    8-byte words that cross into native code. *)
Inductive slot : Type :=
| SInt (n : Z)
| SPtr (p : Z).

(** Modelled from the spec: the builder's two failures (section 7). *)
Inductive error : Type := AllocationFailure | CapacityExceeded.

(** Modelled from the spec: a Parameter List is an ordered sequence of slots
    plus a count, with [count == number of slots] (section 3); the count is
    therefore the length of the sequence. *)
Record t : Type := mk { capacity : nat; slots : list slot }.

Definition count (pl : t) : nat := length (slots pl).

(** Modelled from the spec: [create(capacity)] allocates storage for at most
    [capacity] slots and fails with AllocationFailure if storage cannot be
    obtained.  [avail] is the number of slots the allocator can provide. *)
Definition create (avail cap : nat) : error + t :=
  if (cap <=? avail)%nat then inr (mk cap []) else inl AllocationFailure.

(** Modelled from the spec: [append(value)] appends a new slot, advancing
    the count, and fails with CapacityExceeded if the count would exceed the
    capacity. *)
Definition append (v : slot) (pl : t) : error + t :=
  if (count pl <? capacity pl)%nat then inr (mk (capacity pl) (slots pl ++ [v]))
  else inl CapacityExceeded.

(** Modelled from the spec: [reset()] sets the count to zero and keeps the
    storage. *)
Definition reset (pl : t) : t := mk (capacity pl) [].

(** Modelled from the spec: the word a slot occupies in the raw storage.  No
    type tag crosses the boundary: an integer is stored in two's complement,
    a reference as its address. *)
Definition raw_word (v : slot) : Z :=
  match v with
  | SInt n => to_uint64 n
  | SPtr p => to_uint64 p
  end.

(** Modelled from the spec: [asRawHandle()] exposes the count and the
    underlying storage. *)
Definition asRawHandle (pl : t) : nat * list Z :=
  (count pl, map raw_word (slots pl)).

(** Modelled from the spec: [append] calls in the order of [xs]. *)
Fixpoint append_all (xs : list slot) (pl : t) : error + t :=
  match xs with
  | [] => inr pl
  | x :: xs' =>
      match append x pl with
      | inr pl' => append_all xs' pl'
      | inl e => inl e
      end
  end.

(** Modelled from the spec: building a Parameter List, [create] followed by
    the [append] calls. *)
Definition build (avail cap : nat) (xs : list slot) : error + t :=
  match create avail cap with
  | inr pl => append_all xs pl
  | inl e => inl e
  end.

End PList.

Module Adapter.

Import PList.

(** Modelled from the spec: the consumer's side of a calling signature, one
    kind per position.  The routine's own signature is
    [KInt; KBuf; KBuf]. *)
Inductive kind : Type := KInt | KBuf.

(** Modelled from the spec: what a consumer obtains from one position, the
    integer, or the descriptor behind the reference together with its used
    bytes. *)
Inductive value : Type :=
| VInt (n : Z)
| VBuf (p : Z) (d : ydb_buffer_t) (content : string).

(** Modelled from the spec: the kind a consumer must expect where [v] was
    appended. *)
Definition kind_of (v : slot) : kind :=
  match v with SInt _ => KInt | SPtr _ => KBuf end.

(** The [n] bytes at [a], read as [memcmp] and [printf] read them. *)
Definition load_bytes (a n : Z) : M string :=
  fun s =>
    match read_bytes (bytes (st_heap s)) a (Z.to_nat n) with
    | Some txt => (Normal txt, s)
    | None => (Fault, s)
    end.

(** Modelled from the spec: one pull (section 4.3, step 3), [va_arg] at the
    type the consumer expects, as the routine does it, and for a descriptor
    the fields and the used bytes behind it. *)
Definition pull (k : kind) (var : va_list) : M (value * va_list) :=
  match k with
  | KInt =>
      let* (n, var) := va_arg_int var in
      ret (VInt n, var)
  | KBuf =>
      let* (p, var) := va_arg_ptr var in
      let* la := load p F_len_alloc in
      let* lu := load p F_len_used in
      let* a := load p F_buf_addr in
      let* txt := load_bytes a lu in
      ret (VBuf p (mk_buffer la lu a) txt, var)
  end.

(** Modelled from the spec: the pulls, strictly in the order of the
    signature. *)
Fixpoint pull_all (sig : list kind) (var : va_list) : M (list value) :=
  match sig with
  | [] => ret []
  | k :: sig' =>
      let* (v, var) := pull k var in
      let* vs := pull_all sig' var in
      ret (v :: vs)
  end.

(** Modelled from the spec: [invoke(argCount, parameterList)] (section 4.3),
    generic in the signature; the routine in the sources is a consumer for
    the one signature [KInt; KBuf; KBuf].  The count is validated first,
    then the arguments are pulled in order.  [None] is the CountMismatch
    result. *)
Definition invoke (sig : list kind) (argcnt : nat) : M (option (list value)) :=
  if negb (argcnt =? length sig)%nat then ret None
  else
    let* var := va_start in
    let* vs := pull_all sig var in
    ret (Some vs).

(** Modelled from the spec: the value a slot denotes when it is appended,
    given the heap the descriptors live in. *)
Definition appended (h : heap) (v : slot) : option value :=
  match v with
  | SInt n => Some (VInt n)
  | SPtr p =>
      match descs h !! p with
      | Some d =>
          match read_bytes (bytes h) (buf_addr d) (Z.to_nat (len_used d)) with
          | Some txt => Some (VBuf p d txt)
          | None => None
          end
      | None => None
      end
  end.

(** Modelled from the spec: a slot the builder can be given, a C [int], or
    the address of a descriptor whose used bytes are readable (the backing
    memory must outlive the call, section 4.2). *)
Definition wf_slot (h : heap) (v : slot) : Prop :=
  match v with
  | SInt n => int_range n
  | SPtr p => word_range p /\ is_Some (appended h v)
  end.

End Adapter.

(** ** Vocabulary of the statements *)

(** [wp c s Q]: running [c] from [s] ends in an outcome and a state that
    satisfy [Q]. *)
Definition wp {A} (c : M A) (s : state) (Q : outcome A -> state -> Prop) : Prop :=
  Q (c s).1 (c s).2.

(** A computation that leaves the save area and the heap as it found
    them, whatever its outcome. *)
Definition read_only {A} (c : M A) : Prop :=
  forall s, st_va (c s).2 = st_va s /\ st_heap (c s).2 = st_heap s.

(** Two descriptors that agree except, possibly, on [len_alloc]. *)
Definition same_but_alloc (d d' : ydb_buffer_t) : Prop :=
  len_used d = len_used d' /\ buf_addr d = buf_addr d'.

(** Two states that agree except, possibly, on the [len_alloc] of their
    descriptors. *)
Definition alloc_variant (s s' : state) : Prop :=
  st_va s = st_va s' /\
  bytes (st_heap s) = bytes (st_heap s') /\
  st_out s = st_out s' /\
  st_trace s = st_trace s' /\
  forall p, option_Forall2 same_but_alloc
              (descs (st_heap s) !! p) (descs (st_heap s') !! p).

(** A computation that cannot tell such states apart: same outcome, and
    the final states again differ in [len_alloc] at most. *)
Definition oblivious {A} (c : M A) : Prop :=
  forall s s',
    alloc_variant s s' ->
    (c s).1 = (c s').1 /\ alloc_variant (c s).2 (c s').2.

(** The content comparisons in a stretch of the access log, as (address,
    length) pairs. *)
Definition memcmps (evs : list event) : list (Z * Z) :=
  omap (fun e => match e with EvMemcmp a n => Some (a, n) | _ => None end) evs.

(** What the routine may do to memory on behalf of a call: fetch one of the
    three slots, load a field other than [len_alloc], and compare or
    print the used bytes of a descriptor; it compares only once the used
    length has been found equal to 10, the length of both expected
    texts. *)
Definition accounted (h : heap) (e : event) : Prop :=
  match e with
  | EvVaArg i => (i < 3)%nat
  | EvLoad p f => f <> F_len_alloc
  | EvMemcmp a n =>
      exists p d, descs h !! p = Some d /\ a = buf_addr d /\ n = len_used d /\ n = 10
  | EvPrintStr a n =>
      exists p d, descs h !! p = Some d /\ a = buf_addr d /\ n = len_used d
  end.

(** The state remains the caller's: same save area, heap and output. *)
Definition same_memory (s s' : state) : Prop :=
  st_va s' = st_va s /\ st_heap s' = st_heap s /\ st_out s' = st_out s.

(** ** Further test calls *)

(** The save area is empty and nothing is mapped: any slot access would
    fault. *)
Definition poisoned_call : state := mk_state [] (mk_heap ∅ ∅) "" [].

(** The mutations of the Go test's call: the integer, the bytes of buffer
    one, the used length of buffer two, and the allocated lengths. *)
Definition value_41_state : state :=
  test_call 41 (mk_buffer 64 10 8192) (mk_buffer 64 10 8256)
            "Buffer one" "Buffer two".

Definition buffer_ONE_state : state :=
  test_call 42 (mk_buffer 64 10 8192) (mk_buffer 64 10 8256)
            "Buffer ONE" "Buffer two".

Definition short_two_state : state :=
  test_call 42 (mk_buffer 64 10 8192) (mk_buffer 64 9 8256)
            "Buffer one" "Buffer two".

Definition roomy_state : state :=
  test_call 42 (mk_buffer 1048576 10 8192) (mk_buffer 10 10 8256)
            "Buffer one" "Buffer two".

(** ** Vocabulary of the further properties *)

(** An access that stays below slot [slots] of the save area and, for
    loads, within the descriptors [ptrs]. *)
Definition confined (slots : nat) (ptrs : list Z) (e : event) : Prop :=
  match e with
  | EvVaArg i => (i < slots)%nat
  | EvLoad p _ => p ∈ ptrs
  | EvMemcmp _ _ | EvPrintStr _ _ => True
  end.

(** Two states that present the same call: same save area, same heap. *)
Definition same_inputs (s s' : state) : Prop :=
  st_va s = st_va s' /\ st_heap s = st_heap s'.

(** A computation whose outcome and printed text depend on the call only,
    not on what was printed or logged before. *)
Definition replays {A} (c : M A) : Prop :=
  forall s s',
    same_inputs s s' ->
    (c s).1 = (c s').1 /\
    same_inputs (c s).2 (c s').2 /\
    exists txt,
      st_out (c s).2 = st_out s +:+ txt /\ st_out (c s').2 = st_out s' +:+ txt.

(** Two states that agree on the save area, the descriptors, stdout, and,
    for each descriptor, on its used bytes; the heaps may differ anywhere
    else. *)
Definition same_used_bytes (s s' : state) : Prop :=
  st_va s = st_va s' /\
  descs (st_heap s) = descs (st_heap s') /\
  st_out s = st_out s' /\
  forall p d,
    descs (st_heap s) !! p = Some d ->
    read_bytes (bytes (st_heap s)) (buf_addr d) (Z.to_nat (len_used d))
    = read_bytes (bytes (st_heap s')) (buf_addr d) (Z.to_nat (len_used d)).

(** ** Test calls for the further properties *)

(** A wrong integer in front of two null references, with nothing mapped. *)
Definition garbage_call : state := mk_state [7; 0; 0] (mk_heap ∅ ∅) "" [].

(** Buffer one cut to its first three bytes. *)
Definition short_one_state : state :=
  test_call 42 (mk_buffer 64 3 8192) (mk_buffer 64 10 8256)
            "Buffer one" "Buffer two".

(** Both references point to the first descriptor. *)
Definition aliased_call : state :=
  mk_state [42; 4096; 4096] (st_heap go_test_state) "" [].

(** The Go test's call with more bytes mapped behind the used ones. *)
Definition padded_state : state :=
  test_call 42 (mk_buffer 64 10 8192) (mk_buffer 64 10 8256)
            "Buffer one, and more" "Buffer two!".

(** * Properties *)

Arguments to_int32 : simpl never.
Arguments to_uint64 : simpl never.
Arguments dec : simpl never.
Arguments c_lit : simpl never.
Arguments printf : simpl never.
Arguments strlen : simpl never.

(** ** Integers in argument words *)

Section Words.

Lemma to_uint32_spec w : to_uint32 w = w mod 2 ^ 32.
Proof. unfold to_uint32. apply Z.land_ones. lia. Qed.

Lemma to_uint64_spec z : to_uint64 z = z mod 2 ^ 64.
Proof. unfold to_uint64. apply Z.land_ones. lia. Qed.

Lemma to_uint64_id w : word_range w -> to_uint64 w = w.
Proof.
  unfold word_range. intros Hw. rewrite to_uint64_spec.
  apply Z.mod_small. exact Hw.
Qed.

(** An [int] stored in a word and pulled back as an [int] is unchanged. *)
Lemma to_int32_to_uint64 n : int_range n -> to_int32 (to_uint64 n) = n.
Proof.
  unfold int_range, INT_MIN, INT_MAX. intros Hn.
  unfold to_int32. rewrite to_uint32_spec, to_uint64_spec.
  replace (2 ^ 64) with (2 ^ 32 * 2 ^ 32) by reflexivity.
  rewrite Z.rem_mul_r by lia.
  rewrite Z.mul_comm, Z.mod_add by lia.
  rewrite Z.mod_mod by lia.
  destruct (Z.ltb_spec (n mod 2 ^ 32) (2 ^ 31)) as [Hlt | Hge].
  - destruct (Z.neg_nonneg_cases n) as [Hneg | Hpos].
    + rewrite <- (Z.mod_add n 1 (2 ^ 32)) in Hlt by lia.
      rewrite Z.mod_small in Hlt by lia. lia.
    + apply Z.mod_small. lia.
  - destruct (Z.neg_nonneg_cases n) as [Hneg | Hpos].
    + rewrite <- (Z.mod_add n 1 (2 ^ 32)) by lia.
      rewrite Z.mod_small by lia. lia.
    + rewrite Z.mod_small in Hge by lia. lia.
Qed.

End Words.

(** ** Bytes *)

Section Bytes.

Variable b : gmap Z ascii.

Lemma read_bytes_length a n txt :
  read_bytes b a n = Some txt -> String.length txt = n.
Proof.
  revert a txt. induction n as [| n IH]; intros a txt; simpl.
  - intros [= <-]. reflexivity.
  - destruct (b !! a) as [c |]; [| discriminate].
    destruct (read_bytes b (a + 1) n) as [rest |] eqn:Hrest; [| discriminate].
    intros [= <-]. simpl. f_equal. eapply IH, Hrest.
Qed.

(** Reading fewer bytes from the same address yields a prefix, and [%.*s]
    shows that prefix up to its first NUL. *)
Lemma read_str_of_read_bytes a n txt m :
  read_bytes b a n = Some txt -> (m <= n)%nat ->
  read_str b a m = Some (cut_nul (str_take m txt)).
Proof.
  revert a n txt. induction m as [| m IH]; intros a n txt Hread Hle.
  - reflexivity.
  - destruct n as [| n]; [lia |]. simpl in Hread.
    destruct (b !! a) as [c |] eqn:Hc; [| discriminate].
    destruct (read_bytes b (a + 1) n) as [rest |] eqn:Hrest; [| discriminate].
    injection Hread as <-. simpl. rewrite Hc.
    destruct (Ascii.eqb c NUL); [reflexivity |].
    rewrite (IH (a + 1) n rest Hrest) by lia. reflexivity.
Qed.

Lemma read_str_total a n :
  is_Some (read_bytes b a n) -> is_Some (read_str b a n).
Proof.
  intros [txt Htxt]. eexists.
  eapply read_str_of_read_bytes; [exact Htxt | lia].
Qed.

Lemma compare_bytes_refl x : compare_bytes x x = 0.
Proof.
  induction x as [| c x IH]; simpl; [reflexivity |].
  rewrite Ascii.eqb_refl. exact IH.
Qed.

Lemma compare_bytes_eq x y :
  String.length x = String.length y -> compare_bytes x y = 0 -> x = y.
Proof.
  revert y. induction x as [| c x IH]; intros [| d y]; simpl; try discriminate.
  - reflexivity.
  - intros [= Hlen]. destruct (Ascii.eqb_spec c d) as [-> | Hne].
    + intros H. f_equal. apply IH; assumption.
    + destruct (_ <? _)%nat; discriminate.
Qed.

Lemma lit_bytes_length lit :
  lit_bytes lit (String.length lit) = Some lit.
Proof.
  induction lit as [| c lit IH]; simpl; [reflexivity |].
  rewrite IH. reflexivity.
Qed.

End Bytes.

(** ** The diagnostics are what [printf] renders *)

Section Printf.

Variable s : state.

Lemma printf_count_diag a :
  printf (c_lit "VPLST: FAIL test - Argument count is wrong - expected arg cont %d but received %d\n")
         [AInt expectedargs; AInt a] s
  = (Normal tt, printed (count_diag a) [] s).
Proof. reflexivity. Qed.

Lemma printf_value_diag a :
  printf (c_lit "VPLST: FAIL test - First parameter is wrong - expected %d but received %d\n")
         [AInt expectedval; AInt a] s
  = (Normal tt, printed (value_diag a) [] s).
Proof. reflexivity. Qed.

Lemma printf_buffer1_diag n a :
  printf (c_lit "VPLST: FAIL test - Buffer1 content is wrong - expected %s but received %.*s\n")
         [ALit expectedbuf1; AUInt n; AChars a] s
  = if (0 <=? n) && (n <=? INT_MAX) then
      match read_str (bytes (st_heap s)) a (Z.to_nat n) with
      | Some txt => (Normal tt, printed (buffer1_diag txt) [EvPrintStr a n] s)
      | None => (Fault, s)
      end
    else (Fault, s).
Proof.
  unfold printf.
  set (ds := parse_fmt _ _). vm_compute in ds. subst ds.
  cbn [format prepend as_int].
  destruct (Z.leb_spec n INT_MAX); [| rewrite andb_false_r; reflexivity].
  rewrite andb_true_r.
  destruct (Z.ltb_spec n 0), (Z.leb_spec 0 n); try lia; [reflexivity |].
  destruct (read_str _ _ _); reflexivity.
Qed.

Lemma printf_buffer2_diag n a :
  printf (c_lit "VPLST: FAIL test - Buffer2 content is wrong - expected %s but received %.*s\n")
         [ALit expectedbuf2; AUInt n; AChars a] s
  = if (0 <=? n) && (n <=? INT_MAX) then
      match read_str (bytes (st_heap s)) a (Z.to_nat n) with
      | Some txt => (Normal tt, printed (buffer2_diag txt) [EvPrintStr a n] s)
      | None => (Fault, s)
      end
    else (Fault, s).
Proof.
  unfold printf.
  set (ds := parse_fmt _ _). vm_compute in ds. subst ds.
  cbn [format prepend as_int].
  destruct (Z.leb_spec n INT_MAX); [| rewrite andb_false_r; reflexivity].
  rewrite andb_true_r.
  destruct (Z.ltb_spec n 0), (Z.leb_spec 0 n); try lia; [reflexivity |].
  destruct (read_str _ _ _); reflexivity.
Qed.

End Printf.

(** ** Symbolic execution *)

Section WpRules.

Context {A B : Type}.

Lemma wp_ret (a : A) s Q : Q (Normal a) s -> wp (ret a) s Q.
Proof. exact id. Qed.

Lemma wp_bind (c : M A) (k : A -> M B) s Q :
  wp c s (fun o s' =>
            match o with
            | Normal a => wp (k a) s' Q
            | Fault => Q Fault s'
            end) ->
  wp (bind c k) s Q.
Proof.
  unfold wp, bind. destruct (c s) as [[a |] s']; simpl; exact id.
Qed.

End WpRules.

Lemma wp_va_arg_word var s Q :
  match st_va s !! var with
  | Some w => Q (Normal (w, S var)) (log (EvVaArg var) s)
  | None => Q Fault s
  end ->
  wp (va_arg_word var) s Q.
Proof. unfold wp, va_arg_word. destruct (st_va s !! var); exact id. Qed.

Lemma wp_va_arg_int var s Q :
  match st_va s !! var with
  | Some w => Q (Normal (to_int32 w, S var)) (log (EvVaArg var) s)
  | None => Q Fault s
  end ->
  wp (va_arg_int var) s Q.
Proof.
  unfold wp, va_arg_int, bind, va_arg_word.
  destruct (st_va s !! var); exact id.
Qed.

Lemma wp_load p f s Q :
  match descs (st_heap s) !! p with
  | Some d => Q (Normal (get_field d f)) (log (EvLoad p f) s)
  | None => Q Fault s
  end ->
  wp (load p f) s Q.
Proof. unfold wp, load. destruct (descs (st_heap s) !! p); exact id. Qed.

Lemma wp_memcmp lit a n s Q :
  match lit_bytes lit (Z.to_nat n),
        read_bytes (bytes (st_heap s)) a (Z.to_nat n) with
  | Some x, Some y => Q (Normal (compare_bytes x y)) (log (EvMemcmp a n) s)
  | _, _ => Q Fault s
  end ->
  wp (memcmp lit a n) s Q.
Proof.
  unfold wp, memcmp.
  destruct (lit_bytes lit (Z.to_nat n)); [| exact id].
  destruct (read_bytes _ a _); exact id.
Qed.

Lemma wp_eq {A} (c : M A) s o s' Q :
  c s = (o, s') -> Q o s' -> wp c s Q.
Proof. unfold wp. intros ->. exact id. Qed.

(** One step of the routine's control flow.  A test is decided when it is
    closed. *)
Ltac wp_step :=
  lazymatch goal with
  | |- wp (bind _ _) _ _ => apply wp_bind
  | |- wp (ret _) _ _ => apply wp_ret
  | |- wp va_start _ _ => apply wp_ret
  | |- wp (va_arg_int _) _ _ => apply wp_va_arg_int
  | |- wp (va_arg_ptr _) _ _ => apply wp_va_arg_word
  | |- wp (load _ _) _ _ => apply wp_load
  | |- wp (memcmp _ _ _) _ _ => apply wp_memcmp
  | |- wp (c_or _ _) _ _ => unfold c_or
  | |- wp (when (c_true debugFlag) _) _ _ => apply wp_ret
  | |- wp (if ?b then _ else _) _ _ =>
      let v := eval vm_compute in b in
      lazymatch v with
      | true => change b with true
      | false => change b with false
      end
  end; cbn beta iota.

Section StateFacts.

Variables (e : event) (txt : string) (evs : list event) (s : state).

Lemma st_va_log : st_va (log e s) = st_va s.
Proof. reflexivity. Qed.
Lemma st_heap_log : st_heap (log e s) = st_heap s.
Proof. reflexivity. Qed.
Lemma st_out_log : st_out (log e s) = st_out s.
Proof. reflexivity. Qed.
Lemma st_trace_log : st_trace (log e s) = st_trace s ++ [e].
Proof. reflexivity. Qed.
Lemma st_va_printed : st_va (printed txt evs s) = st_va s.
Proof. reflexivity. Qed.
Lemma st_heap_printed : st_heap (printed txt evs s) = st_heap s.
Proof. reflexivity. Qed.
Lemma st_out_printed : st_out (printed txt evs s) = st_out s +:+ txt.
Proof. reflexivity. Qed.
Lemma st_trace_printed : st_trace (printed txt evs s) = st_trace s ++ evs.
Proof. reflexivity. Qed.

End StateFacts.

Create Rewrite HintDb state.

#[local] Hint Rewrite st_va_log st_heap_log st_out_log st_trace_log
  st_va_printed st_heap_printed st_out_printed st_trace_printed : state.

(** Resolve the lookups a step has exposed with the facts at hand. *)
Ltac wp_facts :=
  repeat (progress
    (autorewrite with state;
     repeat match goal with
       | H : st_va _ = _ |- _ => rewrite H
       | H : descs _ !! _ = Some _ |- _ => rewrite H
       | H : to_int32 _ = _ |- _ => rewrite H
       | H : len_used _ = _ |- _ => rewrite H
       | H : read_bytes _ _ _ = Some _ |- _ => rewrite H
       end;
     repeat match goal with
       | |- context [Z.to_nat (Zpos ?p)] =>
           let v := eval vm_compute in (Z.to_nat (Zpos p)) in
           change (Z.to_nat (Zpos p)) with v
       | |- context [lit_bytes ?l (S ?k)] =>
           let v := eval vm_compute in (lit_bytes l (S k)) in
           lazymatch v with
           | Some _ => change (lit_bytes l (S k)) with v
           end
       end;
     cbn [lookup list_lookup get_field];
     cbn beta iota)).

Ltac wp_run := repeat (wp_step; wp_facts).

(** ** The count check *)

(** C1. A call that announces an argument count other than [expectedargs]
    returns 1 and prints the count diagnostic, and it does so without
    fetching an argument slot or reading memory: the access log, the save
    area and the heap are as they were. *)
Theorem count_mismatch_reads_nothing argcnt s :
  argcnt <> expectedargs ->
  let r := YdB_vArIaDiC_pLiSt_TeSt argcnt s in
  r.1 = Normal 1 /\
  st_out r.2 = st_out s +:+ count_diag argcnt /\
  st_trace r.2 = st_trace s /\
  st_va r.2 = st_va s /\ st_heap r.2 = st_heap s.
Proof.
  intros Hne. unfold YdB_vArIaDiC_pLiSt_TeSt.
  destruct (Z.eqb_spec argcnt expectedargs) as [Heq | _]; [contradiction |].
  cbn [negb]. unfold bind. rewrite printf_count_diag. cbn.
  rewrite app_nil_r. repeat split.
Qed.

Lemma count_mismatch_reads_nothing_witness :
  let r := YdB_vArIaDiC_pLiSt_TeSt 2 poisoned_call in
  r.1 = Normal 1 /\
  st_out r.2 = st_out poisoned_call +:+ count_diag 2 /\
  st_trace r.2 = st_trace poisoned_call /\
  st_va r.2 = st_va poisoned_call /\ st_heap r.2 = st_heap poisoned_call.
Proof.
  apply (count_mismatch_reads_nothing 2 poisoned_call).
  unfold expectedargs. lia.
Defined.

(** ** The scenario of the Go test and its mutations *)

(** C2. Announcing three arguments and passing 42, a descriptor of used
    length 10 over the bytes "Buffer one" and a descriptor of used length 10
    over the bytes "Buffer two", the routine returns 0. *)
Theorem go_test_call_succeeds s w p1 p2 rest :
  st_va s = w :: p1 :: p2 :: rest ->
  to_int32 w = 42 ->
  holds (st_heap s) p1 10 "Buffer one" ->
  holds (st_heap s) p2 10 "Buffer two" ->
  (YdB_vArIaDiC_pLiSt_TeSt 3 s).1 = Normal 0.
Proof.
  intros Hva Hw (d1 & Hd1 & Hn1 & Hb1) (d2 & Hd2 & Hn2 & Hb2).
  simpl String.length in *.
  change (wp (YdB_vArIaDiC_pLiSt_TeSt 3) s (fun o _ => o = Normal 0)).
  unfold YdB_vArIaDiC_pLiSt_TeSt.
  change (negb (3 =? expectedargs)) with false. cbn iota.
  wp_run. reflexivity.
Qed.

Lemma go_test_call_succeeds_witness :
  (YdB_vArIaDiC_pLiSt_TeSt 3 go_test_state).1 = Normal 0.
Proof.
  apply (go_test_call_succeeds go_test_state (to_uint64 42) 4096 4112 []).
  - reflexivity.
  - reflexivity.
  - exists (mk_buffer 64 10 8192). repeat split; vm_compute; reflexivity.
  - exists (mk_buffer 64 10 8256). repeat split; vm_compute; reflexivity.
Defined.

(** C4. Announcing three arguments and passing 41 as the integer, the
    routine returns 1 and prints the diagnostic that names the expected 42
    and the received 41, whatever the descriptors hold. *)
Theorem wrong_value_41_reported s w rest :
  st_va s = w :: rest ->
  to_int32 w = 41 ->
  let r := YdB_vArIaDiC_pLiSt_TeSt 3 s in
  r.1 = Normal 1 /\
  st_out r.2 = st_out s +:+
    "VPLST: FAIL test - First parameter is wrong - expected 42 but received 41" +:+ nl.
Proof.
  intros Hva Hw r. subst r.
  change (wp (YdB_vArIaDiC_pLiSt_TeSt 3) s
            (fun o s' => o = Normal 1 /\ st_out s' = st_out s +:+ value_diag 41)).
  unfold YdB_vArIaDiC_pLiSt_TeSt.
  change (negb (3 =? expectedargs)) with false. cbn iota.
  wp_run.
  eapply wp_eq; [apply printf_value_diag |].
  wp_run. split; reflexivity.
Qed.

Lemma wrong_value_41_reported_witness :
  let r := YdB_vArIaDiC_pLiSt_TeSt 3 value_41_state in
  r.1 = Normal 1 /\
  st_out r.2 = st_out value_41_state +:+
    "VPLST: FAIL test - First parameter is wrong - expected 42 but received 41" +:+ nl.
Proof.
  apply (wrong_value_41_reported value_41_state (to_uint64 41) [4096; 4112]).
  - reflexivity.
  - reflexivity.
Defined.

(** Decide the precision test of [%.*s] for a closed length and read the
    text from the bytes known to be at the address. *)
Ltac wp_print_buffer lem Hbytes :=
  unfold wp; rewrite lem; wp_facts;
  lazymatch goal with
  | |- context [(0 <=? ?n) && (?n <=? INT_MAX)] =>
      change ((0 <=? n) && (n <=? INT_MAX)) with true
  end;
  cbn iota;
  lazymatch goal with
  | |- context [read_str ?b ?a ?m] =>
      rewrite (read_str_of_read_bytes b a _ _ m Hbytes) by lia
  end;
  lazymatch goal with
  | |- context [cut_nul ?t] =>
      let v := eval vm_compute in (cut_nul t) in
      change (cut_nul t) with v
  end.

(** C5. Announcing three arguments and passing 42 and a first descriptor of
    used length 10 over the bytes "Buffer ONE", the routine returns 1 and
    prints the content diagnostic of buffer one. *)
Theorem buffer_one_wrong_bytes_reported s w p1 rest :
  st_va s = w :: p1 :: rest ->
  to_int32 w = 42 ->
  holds (st_heap s) p1 10 "Buffer ONE" ->
  let r := YdB_vArIaDiC_pLiSt_TeSt 3 s in
  r.1 = Normal 1 /\
  st_out r.2 = st_out s +:+
    "VPLST: FAIL test - Buffer1 content is wrong - expected Buffer one but received Buffer ONE"
    +:+ nl.
Proof.
  intros Hva Hw (d1 & Hd1 & Hn1 & Hb1) r. subst r.
  simpl String.length in *.
  change (wp (YdB_vArIaDiC_pLiSt_TeSt 3) s
            (fun o s' => o = Normal 1 /\
                         st_out s' = st_out s +:+ buffer1_diag "Buffer ONE")).
  unfold YdB_vArIaDiC_pLiSt_TeSt.
  change (negb (3 =? expectedargs)) with false. cbn iota.
  wp_run.
  wp_print_buffer printf_buffer1_diag Hb1.
  split; reflexivity.
Qed.

Lemma buffer_one_wrong_bytes_reported_witness :
  let r := YdB_vArIaDiC_pLiSt_TeSt 3 buffer_ONE_state in
  r.1 = Normal 1 /\
  st_out r.2 = st_out buffer_ONE_state +:+
    "VPLST: FAIL test - Buffer1 content is wrong - expected Buffer one but received Buffer ONE"
    +:+ nl.
Proof.
  apply (buffer_one_wrong_bytes_reported buffer_ONE_state (to_uint64 42) 4096 [4112]).
  - reflexivity.
  - reflexivity.
  - exists (mk_buffer 64 10 8192). repeat split; vm_compute; reflexivity.
Defined.

(** C6. Announcing three arguments and passing 42, a correct first buffer
    and a second descriptor of used length 9 over the bytes "Buffer two",
    the routine returns 1 with the content diagnostic of buffer two.  The
    length test comes first: the only content comparison the call makes is
    the one on buffer one, over the 10 bytes its length test admitted; none
    runs on buffer two, whose length failed the test. *)
Theorem buffer_two_short_length_reported s w p1 p2 rest d1 :
  st_va s = w :: p1 :: p2 :: rest ->
  to_int32 w = 42 ->
  descs (st_heap s) !! p1 = Some d1 ->
  holds (st_heap s) p1 10 "Buffer one" ->
  holds (st_heap s) p2 9 "Buffer two" ->
  let r := YdB_vArIaDiC_pLiSt_TeSt 3 s in
  r.1 = Normal 1 /\
  st_out r.2 = st_out s +:+
    "VPLST: FAIL test - Buffer2 content is wrong - expected Buffer two but received Buffer tw"
    +:+ nl /\
  exists evs,
    st_trace r.2 = st_trace s ++ evs /\ memcmps evs = [(buf_addr d1, 10)].
Proof.
  intros Hva Hw Hd1 (d1' & Hd1' & Hn1 & Hb1) (d2 & Hd2 & Hn2 & Hb2) r. subst r.
  assert (d1' = d1) as -> by congruence. clear Hd1'.
  simpl String.length in *.
  change (wp (YdB_vArIaDiC_pLiSt_TeSt 3) s
            (fun o s' =>
               o = Normal 1 /\
               st_out s' = st_out s +:+ buffer2_diag "Buffer tw" /\
               exists evs, st_trace s' = st_trace s ++ evs /\
                           memcmps evs = [(buf_addr d1, 10)])).
  unfold YdB_vArIaDiC_pLiSt_TeSt.
  change (negb (3 =? expectedargs)) with false. cbn iota.
  wp_run.
  wp_print_buffer printf_buffer2_diag Hb2.
  split; [reflexivity |]. split; [reflexivity |].
  cbn [ret fst snd]. autorewrite with state. rewrite <- !app_assoc.
  eexists. split; [reflexivity |]. reflexivity.
Qed.

Lemma buffer_two_short_length_reported_witness :
  let r := YdB_vArIaDiC_pLiSt_TeSt 3 short_two_state in
  r.1 = Normal 1 /\
  st_out r.2 = st_out short_two_state +:+
    "VPLST: FAIL test - Buffer2 content is wrong - expected Buffer two but received Buffer tw"
    +:+ nl /\
  exists evs,
    st_trace r.2 = st_trace short_two_state ++ evs /\ memcmps evs = [(8192, 10)].
Proof.
  apply (buffer_two_short_length_reported short_two_state (to_uint64 42)
           4096 4112 [] (mk_buffer 64 10 8192)).
  - reflexivity.
  - reflexivity.
  - vm_compute; reflexivity.
  - exists (mk_buffer 64 10 8192). repeat split; vm_compute; reflexivity.
  - exists (mk_buffer 64 9 8256). repeat split; vm_compute; reflexivity.
Defined.

(** ** The two blocks the routine runs on each buffer *)

Section BufferBlocks.

Variables (buft : Z) (expected : string) (s : state).

(** The test [buft->len_used != strlen(expected) || 0 != memcmp(expected,
    buft->buf_addr, buft->len_used)], by cases on the descriptor. *)
Lemma wp_buffer_test Q :
  match descs (st_heap s) !! buft with
  | None => Q Fault s
  | Some d =>
      let s1 := log (EvLoad buft F_len_used) s in
      if negb (len_used d =? strlen expected) then Q (Normal true) s1
      else
        let s3 := log (EvLoad buft F_len_used) (log (EvLoad buft F_buf_addr) s1) in
        match read_bytes (bytes (st_heap s)) (buf_addr d) (String.length expected) with
        | Some y =>
            Q (Normal (negb (0 =? compare_bytes expected y)))
              (log (EvMemcmp (buf_addr d) (len_used d)) s3)
        | None => Q Fault s3
        end
  end ->
  wp (c_or (let* n := load buft F_len_used in
            ret (negb (n =? strlen expected)))
           (let* a := load buft F_buf_addr in
            let* n := load buft F_len_used in
            let* r := memcmp expected a n in
            ret (negb (0 =? r)))) s Q.
Proof.
  intros H. unfold c_or. wp_run.
  destruct (descs (st_heap s) !! buft) as [d |] eqn:Hd; [| exact H].
  cbn beta iota zeta in *. wp_run.
  destruct (Z.eqb_spec (len_used d) (strlen expected)) as [Hlen | Hlen];
    cbn [negb] in *; cbn iota in *; [| wp_run; exact H].
  wp_run. rewrite Hlen in H.
  replace (Z.to_nat (strlen expected)) with (String.length expected)
    by (unfold strlen; rewrite Nat2Z.id; reflexivity).
  rewrite lit_bytes_length.
  destruct (read_bytes _ _ _) as [y |]; [wp_run |]; exact H.
Qed.

(** The report [printf(fmt, expected, buft->len_used, buft->buf_addr)]
    behind a failed test, for either buffer. *)
Lemma wp_buffer1_report Q :
  match descs (st_heap s) !! buft with
  | None => Q Fault s
  | Some d =>
      let s2 := log (EvLoad buft F_buf_addr) (log (EvLoad buft F_len_used) s) in
      if (0 <=? len_used d) && (len_used d <=? INT_MAX) then
        match read_str (bytes (st_heap s)) (buf_addr d) (Z.to_nat (len_used d)) with
        | Some txt =>
            Q (Normal tt)
              (printed (buffer1_diag txt) [EvPrintStr (buf_addr d) (len_used d)] s2)
        | None => Q Fault s2
        end
      else Q Fault s2
  end ->
  wp (let* n := load buft F_len_used in
      let* a := load buft F_buf_addr in
      printf (c_lit "VPLST: FAIL test - Buffer1 content is wrong - expected %s but received %.*s\n")
             [ALit expectedbuf1; AUInt n; AChars a]) s Q.
Proof.
  intros H. wp_run.
  destruct (descs (st_heap s) !! buft) as [d |] eqn:Hd; [| exact H].
  cbn beta iota zeta in *. wp_run.
  unfold wp. rewrite printf_buffer1_diag. autorewrite with state.
  destruct (_ && _); [| exact H].
  destruct (read_str _ _ _); exact H.
Qed.

Lemma wp_buffer2_report Q :
  match descs (st_heap s) !! buft with
  | None => Q Fault s
  | Some d =>
      let s2 := log (EvLoad buft F_buf_addr) (log (EvLoad buft F_len_used) s) in
      if (0 <=? len_used d) && (len_used d <=? INT_MAX) then
        match read_str (bytes (st_heap s)) (buf_addr d) (Z.to_nat (len_used d)) with
        | Some txt =>
            Q (Normal tt)
              (printed (buffer2_diag txt) [EvPrintStr (buf_addr d) (len_used d)] s2)
        | None => Q Fault s2
        end
      else Q Fault s2
  end ->
  wp (let* n := load buft F_len_used in
      let* a := load buft F_buf_addr in
      printf (c_lit "VPLST: FAIL test - Buffer2 content is wrong - expected %s but received %.*s\n")
             [ALit expectedbuf2; AUInt n; AChars a]) s Q.
Proof.
  intros H. wp_run.
  destruct (descs (st_heap s) !! buft) as [d |] eqn:Hd; [| exact H].
  cbn beta iota zeta in *. wp_run.
  unfold wp. rewrite printf_buffer2_diag. autorewrite with state.
  destruct (_ && _); [| exact H].
  destruct (read_str _ _ _); exact H.
Qed.

End BufferBlocks.

(** ** Frame: the routine only reads *)

Section ReadOnly.

Lemma read_only_ret {A} (a : A) : read_only (ret a).
Proof. intros s. split; reflexivity. Qed.

Lemma read_only_bind {A B} (c : M A) (k : A -> M B) :
  read_only c -> (forall a, read_only (k a)) -> read_only (bind c k).
Proof.
  intros Hc Hk s. unfold bind.
  destruct (Hc s) as [Hva Hheap].
  destruct (c s) as [[a |] s']; simpl in *.
  - destruct (Hk a s') as [Hva' Hheap']. split; congruence.
  - split; assumption.
Qed.

Lemma read_only_if {A} (b : bool) (c1 c2 : M A) :
  read_only c1 -> read_only c2 -> read_only (if b then c1 else c2).
Proof. destruct b; auto. Qed.

Lemma read_only_when b c : read_only c -> read_only (when b c).
Proof. intros Hc. apply read_only_if; [exact Hc | apply read_only_ret]. Qed.

Lemma read_only_c_or a b : read_only a -> read_only b -> read_only (c_or a b).
Proof.
  intros Ha Hb. apply read_only_bind; [exact Ha |].
  intros x. apply read_only_if; [apply read_only_ret | exact Hb].
Qed.

Lemma read_only_va_arg_word var : read_only (va_arg_word var).
Proof.
  intros s. unfold va_arg_word.
  destruct (st_va s !! var); split; reflexivity.
Qed.

Lemma read_only_va_arg_int var : read_only (va_arg_int var).
Proof.
  apply read_only_bind; [apply read_only_va_arg_word |].
  intros [w var']. apply read_only_ret.
Qed.

Lemma read_only_load p f : read_only (load p f).
Proof.
  intros s. unfold load.
  destruct (descs (st_heap s) !! p); split; reflexivity.
Qed.

Lemma read_only_memcmp lit a n : read_only (memcmp lit a n).
Proof.
  intros s. unfold memcmp.
  destruct (lit_bytes lit (Z.to_nat n)); [| split; reflexivity].
  destruct (read_bytes _ a _); split; reflexivity.
Qed.

Lemma read_only_printf fmt args : read_only (printf fmt args).
Proof.
  intros s. unfold printf.
  destruct (format _ _ _) as [[txt evs] |]; split; reflexivity.
Qed.

End ReadOnly.

Create HintDb read_only discriminated.

#[local] Hint Resolve read_only_ret read_only_va_arg_word read_only_va_arg_int
  read_only_load read_only_memcmp read_only_printf : read_only.

(** Follow the structure of a computation down to its primitives. *)
Ltac read_only_tac :=
  repeat first
    [ apply read_only_bind; [| let x := fresh "x" in
                               intros x;
                               try lazymatch type of x with
                                   | (_ * _)%type => destruct x
                                   end]
    | apply read_only_if
    | apply read_only_when
    | apply read_only_c_or
    | solve [unfold va_start, va_arg_ptr; auto with read_only] ].

Lemma YdB_vArIaDiC_pLiSt_TeSt_read_only argcnt :
  read_only (YdB_vArIaDiC_pLiSt_TeSt argcnt).
Proof. unfold YdB_vArIaDiC_pLiSt_TeSt. read_only_tac. Qed.

(** C8. Whatever a call passes and whatever it returns, the descriptors,
    the bytes behind them and the argument slots are after the call what
    they were before it. *)
Theorem call_writes_nothing argcnt s :
  let r := YdB_vArIaDiC_pLiSt_TeSt argcnt s in
  st_va r.2 = st_va s /\
  descs (st_heap r.2) = descs (st_heap s) /\
  bytes (st_heap r.2) = bytes (st_heap s).
Proof.
  intros r. subst r.
  destruct (YdB_vArIaDiC_pLiSt_TeSt_read_only argcnt s) as [Hva Hheap].
  rewrite Hheap. repeat split. exact Hva.
Qed.

(** ** The allocated length is never consulted *)

Section AllocVariant.

Lemma alloc_variant_log e s s' :
  alloc_variant s s' -> alloc_variant (log e s) (log e s').
Proof.
  intros (Hva & Hb & Ho & Ht & Hd). repeat split; simpl; try assumption.
  rewrite Ht. reflexivity.
Qed.

Lemma alloc_variant_printed txt evs s s' :
  alloc_variant s s' -> alloc_variant (printed txt evs s) (printed txt evs s').
Proof.
  intros (Hva & Hb & Ho & Ht & Hd). repeat split; simpl; try assumption.
  - rewrite Ho. reflexivity.
  - rewrite Ht. reflexivity.
Qed.

Lemma oblivious_ret {A} (a : A) : oblivious (ret a).
Proof. intros s s' H. split; [reflexivity | exact H]. Qed.

Lemma oblivious_bind {A B} (c : M A) (k : A -> M B) :
  oblivious c -> (forall a, oblivious (k a)) -> oblivious (bind c k).
Proof.
  intros Hc Hk s s' H. unfold bind.
  destruct (Hc s s' H) as [Ho Hs].
  destruct (c s) as [[a |] s1], (c s') as [[a' |] s1']; simpl in *;
    try discriminate.
  - injection Ho as <-. apply Hk, Hs.
  - split; [reflexivity | exact Hs].
Qed.

Lemma oblivious_if {A} (b : bool) (c1 c2 : M A) :
  oblivious c1 -> oblivious c2 -> oblivious (if b then c1 else c2).
Proof. destruct b; auto. Qed.

Lemma oblivious_c_or a b : oblivious a -> oblivious b -> oblivious (c_or a b).
Proof.
  intros Ha Hb. apply oblivious_bind; [exact Ha |].
  intros x. apply oblivious_if; [apply oblivious_ret | exact Hb].
Qed.

(** The debug blocks are the only place that reads [len_alloc]; with
    [debugFlag] at 0 they do not run. *)
Lemma oblivious_when_debug c : oblivious (when (c_true debugFlag) c).
Proof. apply (oblivious_ret tt). Qed.

Lemma oblivious_va_arg_word var : oblivious (va_arg_word var).
Proof.
  intros s s' H. unfold va_arg_word.
  destruct H as (Hva & H'). rewrite <- Hva.
  destruct (st_va s !! var); simpl.
  - split; [reflexivity |]. apply alloc_variant_log. split; assumption.
  - split; [reflexivity |]. split; assumption.
Qed.

Lemma oblivious_va_arg_int var : oblivious (va_arg_int var).
Proof.
  apply oblivious_bind; [apply oblivious_va_arg_word |].
  intros [w var']. apply oblivious_ret.
Qed.

Lemma oblivious_load p f : f <> F_len_alloc -> oblivious (load p f).
Proof.
  intros Hf s s' H. unfold load.
  pose proof H as (_ & _ & _ & _ & Hd). specialize (Hd p).
  destruct Hd as [d d' [Hu Ha] |]; simpl.
  - split; [| apply alloc_variant_log, H].
    destruct f; simpl; congruence.
  - split; [reflexivity | exact H].
Qed.

Lemma oblivious_memcmp lit a n : oblivious (memcmp lit a n).
Proof.
  intros s s' H. unfold memcmp.
  pose proof H as (_ & Hb & _). rewrite <- Hb.
  destruct (lit_bytes lit (Z.to_nat n)); [| split; [reflexivity | exact H]].
  destruct (read_bytes _ a _); simpl.
  - split; [reflexivity | apply alloc_variant_log, H].
  - split; [reflexivity | exact H].
Qed.

Lemma oblivious_printf fmt args : oblivious (printf fmt args).
Proof.
  intros s s' H. unfold printf.
  pose proof H as (_ & Hb & _). rewrite <- Hb.
  destruct (format _ _ _) as [[txt evs] |]; simpl.
  - split; [reflexivity | apply alloc_variant_printed, H].
  - split; [reflexivity | exact H].
Qed.

End AllocVariant.

Create HintDb oblivious discriminated.

#[local] Hint Resolve oblivious_ret oblivious_va_arg_word oblivious_va_arg_int
  oblivious_memcmp oblivious_printf oblivious_when_debug : oblivious.

Ltac oblivious_tac :=
  repeat first
    [ apply oblivious_when_debug
    | apply oblivious_bind; [| let x := fresh "x" in
                               intros x;
                               try lazymatch type of x with
                                   | (_ * _)%type => destruct x
                                   end]
    | apply oblivious_if
    | apply oblivious_c_or
    | apply oblivious_load; discriminate
    | solve [unfold va_start, va_arg_ptr; auto with oblivious] ].

Lemma YdB_vArIaDiC_pLiSt_TeSt_oblivious argcnt :
  oblivious (YdB_vArIaDiC_pLiSt_TeSt argcnt).
Proof. unfold YdB_vArIaDiC_pLiSt_TeSt. oblivious_tac. Qed.

(** ** Every path of the routine *)

(** One step on an arbitrary call: as [wp_step], with the buffer blocks
    taken whole and a case split wherever the data decides. *)
Ltac wp_any :=
  lazymatch goal with
  | |- wp (c_or _ _) _ _ => apply wp_buffer_test
  | |- wp (bind (load _ F_len_used) _) _ _ =>
      first [apply wp_buffer1_report | apply wp_buffer2_report]
  | |- wp (printf _ [AInt expectedargs; _]) _ _ =>
      eapply wp_eq; [apply printf_count_diag |]
  | |- wp (printf _ [AInt expectedval; _]) _ _ =>
      eapply wp_eq; [apply printf_value_diag |]
  | |- wp (bind _ _) _ _ => apply wp_bind
  | |- wp (ret _) _ _ => apply wp_ret
  | |- wp va_start _ _ => apply wp_ret
  | |- wp (va_arg_int _) _ _ => apply wp_va_arg_int
  | |- wp (va_arg_ptr _) _ _ => apply wp_va_arg_word
  | |- wp (when (c_true debugFlag) _) _ _ => apply wp_ret
  | |- wp (if ?b then _ else _) _ _ => destruct b eqn:?
  | |- match ?x with _ => _ end => destruct x eqn:?
  end;
  cbn beta iota zeta;
  autorewrite with state;
  repeat match goal with
    | H : st_va _ = _ |- _ => rewrite H
    | H : st_va _ !! _ = _ |- _ => rewrite H
    | H : descs _ !! _ = _ |- _ => rewrite H
    end;
  cbn [lookup list_lookup];
  cbn beta iota zeta.

Ltac wp_all := repeat wp_any.

Lemma length_test_passed d expected :
  String.length expected = 10%nat ->
  negb (len_used d =? strlen expected) = false ->
  len_used d = 10.
Proof.
  unfold strlen. intros -> H.
  apply negb_false_iff, Z.eqb_eq in H. exact H.
Qed.

Lemma access_discipline argcnt s :
  exists evs,
    st_trace (YdB_vArIaDiC_pLiSt_TeSt argcnt s).2 = st_trace s ++ evs /\
    Forall (accounted (st_heap s)) evs.
Proof.
  change (wp (YdB_vArIaDiC_pLiSt_TeSt argcnt) s
            (fun _ s' => exists evs, st_trace s' = st_trace s ++ evs /\
                                     Forall (accounted (st_heap s)) evs)).
  unfold YdB_vArIaDiC_pLiSt_TeSt.
  wp_all.
  all: rewrite <- ?app_assoc; eexists;
    (split; [first [reflexivity | symmetry; apply app_nil_r] |]).
  all: cbn [app]; repeat apply Forall_cons_2; try apply Forall_nil_2.
  all: cbn [accounted]; try lia; try discriminate.
  all: eexists _, _; repeat split; try eassumption.
  all: eapply length_test_passed; [| eassumption]; reflexivity.
Qed.

(** ** Valid calls return, and say what was wrong *)

Section Validity.

Variables (h : heap) (p : Z) (d : ydb_buffer_t).
Hypothesis Hd : descs h !! p = Some d.

Lemma valid_buffer_report :
  valid_buffer h p ->
  (0 <=? len_used d) && (len_used d <=? INT_MAX) = true /\
  is_Some (read_str (bytes h) (buf_addr d) (Z.to_nat (len_used d))).
Proof.
  intros (d' & Hd' & Hrange & Hread).
  assert (d' = d) as -> by congruence.
  split; [| apply read_str_total, Hread].
  apply andb_true_iff. split; apply Z.leb_le; lia.
Qed.

Lemma valid_buffer_compare expected :
  valid_buffer h p ->
  negb (len_used d =? strlen expected) = false ->
  is_Some (read_bytes (bytes h) (buf_addr d) (String.length expected)).
Proof.
  intros (d' & Hd' & Hrange & Hread) Hlen.
  assert (d' = d) as -> by congruence.
  apply negb_false_iff, Z.eqb_eq in Hlen.
  rewrite Hlen in Hread. unfold strlen in Hread.
  rewrite Nat2Z.id in Hread. exact Hread.
Qed.

Lemma mismatch_by_length expected :
  negb (len_used d =? strlen expected) = true ->
  ~ holds h p (strlen expected) expected.
Proof.
  intros Hlen (d' & Hd' & Hn & _).
  assert (d' = d) as -> by congruence.
  apply negb_true_iff, Z.eqb_neq in Hlen. contradiction.
Qed.

Lemma mismatch_by_bytes expected y :
  read_bytes (bytes h) (buf_addr d) (String.length expected) = Some y ->
  negb (0 =? compare_bytes expected y) = true ->
  ~ holds h p (strlen expected) expected.
Proof.
  intros Hy Hcmp (d' & Hd' & _ & Hbytes).
  assert (d' = d) as -> by congruence.
  assert (y = expected) as -> by congruence.
  rewrite compare_bytes_refl in Hcmp. discriminate.
Qed.

Lemma match_by_bytes expected y :
  negb (len_used d =? strlen expected) = false ->
  read_bytes (bytes h) (buf_addr d) (String.length expected) = Some y ->
  negb (0 =? compare_bytes expected y) = false ->
  holds h p (strlen expected) expected.
Proof.
  intros Hlen Hy Hcmp. exists d. split; [exact Hd |].
  apply negb_false_iff, Z.eqb_eq in Hlen. split; [exact Hlen |].
  apply negb_false_iff, Z.eqb_eq in Hcmp.
  rewrite Hy. f_equal. symmetry. apply compare_bytes_eq.
  - symmetry. eapply read_bytes_length, Hy.
  - symmetry. exact Hcmp.
Qed.

End Validity.

Lemma count_test_passed argcnt :
  negb (argcnt =? expectedargs) = false -> argcnt = expectedargs.
Proof. intros H. apply negb_false_iff, Z.eqb_eq in H. exact H. Qed.

Lemma value_test_passed w :
  negb (expectedval =? to_int32 w) = false -> to_int32 w = expectedval.
Proof. intros H. apply negb_false_iff, Z.eqb_eq in H. symmetry. exact H. Qed.

(** A faulting path contradicts the validity of the call. *)
Ltac fault_leaf :=
  let Hv := fresh "Hv" in
  intros Hv;
  match goal with
  | Hc : negb (_ =? expectedargs) = false |- _ =>
      apply negb_false_iff, Z.eqb_eq in Hc; specialize (Hv Hc)
  end;
  let Hva := fresh "Hva" in
  let Hv1 := fresh "Hv1" in
  let Hv2 := fresh "Hv2" in
  destruct Hv as (? & ? & ? & ? & Hva & Hv1 & Hv2);
  rewrite Hva in *; cbn [lookup list_lookup] in *; simplify_eq;
  repeat match goal with
    | Hd : descs ?h !! ?p = Some ?d, Hv : valid_buffer ?h ?p |- _ =>
        let Hr := fresh "Hr" in
        let Hs := fresh "Hs" in
        destruct (valid_buffer_report h p d Hd Hv) as [Hr Hs];
        try (match goal with
             | Hl : negb (len_used d =? strlen ?e) = false |- _ =>
                 pose proof (valid_buffer_compare h p d Hd e Hv Hl)
             end);
        clear Hv
    | Hv : valid_buffer ?h ?p, Hd : descs ?h !! ?p = None |- _ =>
        destruct Hv as (? & ? & _); congruence
    end;
  repeat match goal with
    | H : is_Some ?x, H' : ?x = None |- _ =>
        rewrite H' in H; destruct H; discriminate
    end;
  try congruence.

(** The checks a path has passed, and the one it failed. *)
Ltac passed :=
  first
    [ eassumption
    | apply count_test_passed; eassumption
    | apply value_test_passed; eassumption
    | eapply match_by_bytes; eassumption ].

Ltac failed :=
  first
    [ match goal with
      | H : negb (_ =? expectedargs) = true |- _ =>
          apply negb_true_iff, Z.eqb_neq in H; exact H
      end
    | match goal with
      | H : negb (expectedval =? _) = true |- _ =>
          apply negb_true_iff, Z.eqb_neq in H; congruence
      end
    | eapply mismatch_by_length; eassumption
    | eapply mismatch_by_bytes; eassumption ].

(** A returning path ends in success on the expected call, with nothing
    printed, or in failure with the diagnostic of the first check that
    failed. *)
Ltac normal_leaf :=
  first
    [ left; split; [reflexivity |]; split; [reflexivity |];
      split; [passed |]; eexists _, _, _; repeat split; passed
    | right; split; [reflexivity |];
      eexists; split; [| reflexivity];
      first
        [ apply diag_count; failed
        | eapply diag_value; [passed | passed | failed]
        | eapply diag_buffer1;
          [passed | passed | passed | passed | passed | passed | failed]
        | eapply diag_buffer2;
          [passed | passed | passed | passed | passed | passed | passed
          | passed | failed] ] ].

(** Every path of the routine: it returns 0 on the expected call, having
    printed nothing, or returns 1 having printed one diagnostic; it faults
    only on a call that is not valid. *)
Lemma outcome_cases argcnt s :
  wp (YdB_vArIaDiC_pLiSt_TeSt argcnt) s
     (fun o s' =>
        match o with
        | Normal r =>
            (r = 0 /\ st_out s' = st_out s /\ expected_call argcnt s) \/
            (r = 1 /\ exists line, diagnostic argcnt s line /\
                                   st_out s' = st_out s +:+ line)
        | Fault => ~ valid_call argcnt s
        end).
Proof.
  unfold YdB_vArIaDiC_pLiSt_TeSt.
  wp_all.
  all: first [normal_leaf | fault_leaf].
Qed.

(** C7. A valid call that is not the expected one (a call on which the
    routine does not succeed) returns 1, as an ordinary return value, and
    has printed exactly one line: the diagnostic of the first check that
    failed, naming the expected and the received value. *)
Theorem failure_returns_1_with_diagnostic argcnt s :
  valid_call argcnt s ->
  ~ expected_call argcnt s ->
  exists s' line,
    YdB_vArIaDiC_pLiSt_TeSt argcnt s = (Normal 1, s') /\
    diagnostic argcnt s line /\
    st_out s' = st_out s +:+ line.
Proof.
  intros Hvalid Hmismatch.
  pose proof (outcome_cases argcnt s) as H. unfold wp in H.
  destruct (YdB_vArIaDiC_pLiSt_TeSt argcnt s) as [[v |] s']; simpl in H.
  - destruct H as [(_ & _ & He) | (-> & line & Hdiag & Hout)].
    + contradiction.
    + exists s', line. split; [reflexivity |]. split; assumption.
  - contradiction.
Qed.

Lemma go_test_state_valid : valid_call 3 go_test_state.
Proof.
  intros _. exists (to_uint64 42), 4096, 4112, [].
  split; [reflexivity |].
  split.
  - exists (mk_buffer 64 10 8192).
    split; [vm_compute; reflexivity |].
    split; [unfold INT_MAX; simpl; lia |].
    vm_compute. eexists. reflexivity.
  - exists (mk_buffer 64 10 8256).
    split; [vm_compute; reflexivity |].
    split; [unfold INT_MAX; simpl; lia |].
    vm_compute. eexists. reflexivity.
Defined.

Lemma failure_returns_1_with_diagnostic_witness :
  exists s' line,
    YdB_vArIaDiC_pLiSt_TeSt 3 value_41_state = (Normal 1, s') /\
    diagnostic 3 value_41_state line /\
    st_out s' = st_out value_41_state +:+ line.
Proof.
  apply (failure_returns_1_with_diagnostic 3 value_41_state).
  - intros _. exists (to_uint64 41), 4096, 4112, [].
    split; [reflexivity |].
    split.
    + exists (mk_buffer 64 10 8192).
      split; [vm_compute; reflexivity |].
      split; [unfold INT_MAX; simpl; lia |].
      vm_compute. eexists. reflexivity.
    + exists (mk_buffer 64 10 8256).
      split; [vm_compute; reflexivity |].
      split; [unfold INT_MAX; simpl; lia |].
      vm_compute. eexists. reflexivity.
  - intros (_ & w & p1 & p2 & Hw & Hval & _).
    injection Hw as <-. vm_compute in Hval. discriminate.
Defined.

(** C10. A call that returns, returns 0 or 1 and nothing else, and when it
    returns 0 it has printed nothing; and a valid call does return. *)
Theorem returns_0_or_1_silent_on_0 argcnt s :
  let r := YdB_vArIaDiC_pLiSt_TeSt argcnt s in
  (valid_call argcnt s -> exists v, r.1 = Normal v) /\
  (forall v, r.1 = Normal v ->
     (v = 0 \/ v = 1) /\ (v = 0 -> st_out r.2 = st_out s)).
Proof.
  intros r. subst r.
  pose proof (outcome_cases argcnt s) as H. unfold wp in H.
  destruct (YdB_vArIaDiC_pLiSt_TeSt argcnt s) as [[v |] s']; simpl in *.
  - split; [intros _; exists v; reflexivity |].
    intros v' [= <-].
    destruct H as [(H0 & Hout & _) | [H1 _]].
    + split; [left; exact H0 | intros _; exact Hout].
    + split; [right; exact H1 | intros H0; lia].
  - split; [intros Hv; contradiction | intros v' [=]].
Qed.

Lemma returns_0_or_1_silent_on_0_witness :
  exists v, (YdB_vArIaDiC_pLiSt_TeSt 3 short_two_state).1 = Normal v.
Proof.
  apply (proj1 (returns_0_or_1_silent_on_0 3 short_two_state)).
  intros _. exists (to_uint64 42), 4096, 4112, [].
  split; [reflexivity |].
  split.
  - exists (mk_buffer 64 10 8192).
    split; [vm_compute; reflexivity |].
    split; [unfold INT_MAX; simpl; lia |].
    vm_compute. eexists. reflexivity.
  - exists (mk_buffer 64 9 8256).
    split; [vm_compute; reflexivity |].
    split; [unfold INT_MAX; simpl; lia |].
    vm_compute. eexists. reflexivity.
Defined.

(** ** Independence of the allocated length *)

(** C9. Two calls that differ only in the [len_alloc] of their descriptors
    have the same outcome, print the same text and make the same accesses;
    for the routine never loads [len_alloc], and what it compares or prints
    of a buffer is its used bytes. *)
Theorem len_alloc_irrelevant argcnt s s' :
  alloc_variant s s' ->
  let r := YdB_vArIaDiC_pLiSt_TeSt argcnt s in
  let r' := YdB_vArIaDiC_pLiSt_TeSt argcnt s' in
  r.1 = r'.1 /\
  st_out r.2 = st_out r'.2 /\
  exists evs,
    st_trace r.2 = st_trace s ++ evs /\
    st_trace r'.2 = st_trace s' ++ evs /\
    Forall (accounted (st_heap s)) evs.
Proof.
  intros Hs r r'. subst r r'.
  destruct (YdB_vArIaDiC_pLiSt_TeSt_oblivious argcnt s s' Hs)
    as (Hres & _ & _ & Hout & Htr & _).
  destruct (access_discipline argcnt s) as (evs & Hevs & Hacc).
  split; [exact Hres |]. split; [exact Hout |].
  exists evs. split; [exact Hevs |]. split; [| exact Hacc].
  destruct Hs as (_ & _ & _ & Htr0 & _).
  rewrite <- Htr, <- Htr0. exact Hevs.
Qed.

Lemma test_call_alloc_variant num d1 d2 d1' d2' txt1 txt2 :
  same_but_alloc d1 d1' -> same_but_alloc d2 d2' ->
  alloc_variant (test_call num d1 d2 txt1 txt2) (test_call num d1' d2' txt1 txt2).
Proof.
  intros H1 H2. pose proof H1 as [_ Ha1]. pose proof H2 as [_ Ha2].
  unfold alloc_variant, test_call, test_heap. simpl.
  rewrite Ha1, Ha2. repeat split.
  intros p.
  destruct (decide (p = 4096)) as [-> | Hp1].
  - rewrite !lookup_insert_eq. constructor. exact H1.
  - rewrite !(lookup_insert_ne _ 4096 p) by congruence.
    destruct (decide (p = 4112)) as [-> | Hp2].
    + rewrite !lookup_insert_eq. constructor. exact H2.
    + rewrite !(lookup_insert_ne _ 4112 p) by congruence.
      rewrite lookup_empty. constructor.
Qed.

Lemma len_alloc_irrelevant_witness :
  (YdB_vArIaDiC_pLiSt_TeSt 3 go_test_state).1
  = (YdB_vArIaDiC_pLiSt_TeSt 3 roomy_state).1.
Proof.
  apply (len_alloc_irrelevant 3 go_test_state roomy_state).
  apply test_call_alloc_variant; split; reflexivity.
Defined.

(** ** Round trip through the parameter list *)

Section RoundTrip.

Import PList Adapter.

Lemma append_all_fits xs pl :
  (count pl + length xs <= capacity pl)%nat ->
  append_all xs pl = inr (mk (capacity pl) (slots pl ++ xs)).
Proof.
  revert pl. induction xs as [| x xs IH]; intros [cap sl]; simpl.
  - intros _. rewrite app_nil_r. reflexivity.
  - unfold append, count. simpl. intros Hfit.
    destruct (Nat.ltb_spec (length sl) cap) as [_ | Hge]; [| lia].
    rewrite IH.
    + simpl. rewrite <- app_assoc. reflexivity.
    + unfold count. simpl. rewrite length_app. simpl. lia.
Qed.

Lemma build_fits avail cap xs :
  (cap <= avail)%nat -> (length xs <= cap)%nat ->
  build avail cap xs = inr (mk cap xs).
Proof.
  intros Hcap Hlen. unfold build, create.
  destruct (Nat.leb_spec cap avail) as [_ | Hgt]; [| lia].
  rewrite append_all_fits; [reflexivity | simpl; lia].
Qed.

Lemma pull_slot pre x rest s v :
  st_va s = pre ++ raw_word x :: rest ->
  wf_slot (st_heap s) x ->
  appended (st_heap s) x = Some v ->
  exists s',
    pull (kind_of x) (length pre) s = (Normal (v, S (length pre)), s') /\
    same_memory s s'.
Proof.
  intros Hva Hwf Hv.
  assert (Hw : st_va s !! length pre = Some (raw_word x))
    by (rewrite Hva; apply list_lookup_middle; reflexivity).
  destruct x as [n | p]; simpl in *.
  - injection Hv as <-.
    unfold va_arg_int, va_arg_word, bind. rewrite Hw. simpl.
    rewrite to_int32_to_uint64 by exact Hwf.
    eexists. split; [reflexivity |]. repeat split.
  - destruct Hwf as [Hp _].
    rewrite (to_uint64_id p Hp) in Hw.
    destruct (descs (st_heap s) !! p) as [d |] eqn:Hd; [| discriminate].
    destruct (read_bytes _ _ _) as [txt |] eqn:Htxt; [| discriminate].
    injection Hv as <-.
    unfold va_arg_ptr, va_arg_word, load, load_bytes, bind.
    rewrite Hw. simpl. repeat (rewrite Hd; simpl). rewrite Htxt.
    destruct d as [la lu a]. simpl.
    eexists. split; [reflexivity |]. repeat split.
Qed.

Lemma pull_all_slots xs : forall pre s,
  st_va s = pre ++ map raw_word xs ->
  Forall (wf_slot (st_heap s)) xs ->
  exists vs s',
    pull_all (map kind_of xs) (length pre) s = (Normal vs, s') /\
    Forall2 (fun x v => appended (st_heap s) x = Some v) xs vs /\
    same_memory s s'.
Proof.
  induction xs as [| x xs IH]; intros pre s Hva Hwf.
  - exists [], s. repeat split. constructor.
  - apply Forall_cons in Hwf as [Hx Hxs]. simpl in Hva.
    assert (exists v, appended (st_heap s) x = Some v) as [v Hv].
    { destruct x as [n | p]; [eexists; reflexivity |].
      destruct Hx as [_ [v Hv]]. exists v. exact Hv. }
    destruct (pull_slot pre x (map raw_word xs) s v Hva Hx Hv)
      as (s1 & Hpull & Hva1 & Hheap1 & Hout1).
    destruct (IH (pre ++ [raw_word x]) s1) as (vs & s2 & Hrest & Hvs & Hva2 & Hheap2 & Hout2).
    { rewrite Hva1, Hva, <- app_assoc. reflexivity. }
    { rewrite Hheap1. exact Hxs. }
    exists (v :: vs), s2. split.
    + simpl. unfold bind at 1. rewrite Hpull.
      rewrite length_app in Hrest. simpl in Hrest.
      replace (length pre + 1)%nat with (S (length pre)) in Hrest by lia.
      unfold bind. rewrite Hrest. reflexivity.
    + split.
      * constructor; [exact Hv |]. rewrite Hheap1 in Hvs. exact Hvs.
      * repeat split; congruence.
Qed.

(** C3. Appending the values [xs] in order to a fresh list with room for
    them, and invoking a consumer whose signature is the kinds of [xs] on
    the raw handle, yields the values appended, in order: each [int] as it
    was given, each reference with the descriptor it points to and that
    descriptor's used bytes; the heap is unchanged. *)
Theorem append_invoke_roundtrip avail cap xs h out tr :
  (cap <= avail)%nat ->
  (length xs <= cap)%nat ->
  Forall (wf_slot h) xs ->
  exists pl vs,
    build avail cap xs = inr pl /\
    let r := invoke (map kind_of xs) (asRawHandle pl).1
                    (mk_state (asRawHandle pl).2 h out tr) in
    r.1 = Normal (Some vs) /\
    Forall2 (fun x v => appended h x = Some v) xs vs /\
    st_heap r.2 = h.
Proof.
  intros Hcap Hlen Hwf.
  exists (mk cap xs).
  set (s := mk_state (map raw_word xs) h out tr).
  destruct (pull_all_slots xs [] s) as (vs & s' & Hpull & Hvs & _ & Hheap & _);
    [reflexivity | exact Hwf |].
  exists vs. split; [apply build_fits; assumption |].
  cbn zeta. unfold asRawHandle, count. cbn [fst snd slots].
  fold s. unfold invoke.
  rewrite length_map, Nat.eqb_refl. cbn [negb].
  unfold bind, va_start, ret. cbn [length] in Hpull. rewrite Hpull.
  cbn [fst snd]. repeat split; assumption.
Qed.

Lemma append_invoke_roundtrip_witness :
  exists pl vs,
    build 8 4 [SInt 42; SPtr 4096; SPtr 4112] = inr pl /\
    let r := invoke (map kind_of [SInt 42; SPtr 4096; SPtr 4112])
                    (asRawHandle pl).1
                    (mk_state (asRawHandle pl).2 (st_heap go_test_state) "" []) in
    r.1 = Normal (Some vs) /\
    Forall2 (fun x v => appended (st_heap go_test_state) x = Some v)
            [SInt 42; SPtr 4096; SPtr 4112] vs /\
    st_heap r.2 = st_heap go_test_state.
Proof.
  apply (append_invoke_roundtrip 8 4 [SInt 42; SPtr 4096; SPtr 4112]
           (st_heap go_test_state) "" []).
  - lia.
  - simpl. lia.
  - repeat apply Forall_cons_2; try apply Forall_nil_2.
    + unfold wf_slot, int_range, INT_MIN, INT_MAX. lia.
    + split; [unfold word_range; lia | vm_compute; eexists; reflexivity].
    + split; [unfold word_range; lia | vm_compute; eexists; reflexivity].
Defined.

(** The routine of the sources is such a consumer: given the list built from
    42 and two references to the expected buffers, it returns 0. *)
Lemma built_list_accepted avail p1 p2 h out tr pl :
  word_range p1 -> word_range p2 ->
  holds h p1 10 "Buffer one" ->
  holds h p2 10 "Buffer two" ->
  build avail 3 [SInt 42; SPtr p1; SPtr p2] = inr pl ->
  (YdB_vArIaDiC_pLiSt_TeSt (Z.of_nat (asRawHandle pl).1)
     (mk_state (asRawHandle pl).2 h out tr)).1 = Normal 0.
Proof.
  intros Hp1 Hp2 (d1 & Hd1 & Hn1 & Hb1) (d2 & Hd2 & Hn2 & Hb2) Hbuild.
  unfold build, create in Hbuild.
  destruct (3 <=? avail)%nat; [| discriminate].
  injection Hbuild as <-.
  unfold asRawHandle, count. cbn [fst snd slots length map raw_word].
  rewrite (to_uint64_id p1 Hp1), (to_uint64_id p2 Hp2).
  simpl String.length in *.
  set (s := mk_state _ h out tr).
  assert (Hva : st_va s = [to_uint64 42; p1; p2]) by reflexivity.
  assert (Hw : to_int32 (to_uint64 42) = 42) by reflexivity.
  change (descs (st_heap s) !! p1 = Some d1) in Hd1.
  change (descs (st_heap s) !! p2 = Some d2) in Hd2.
  change (read_bytes (bytes (st_heap s)) (buf_addr d1) 10 = Some "Buffer one") in Hb1.
  change (read_bytes (bytes (st_heap s)) (buf_addr d2) 10 = Some "Buffer two") in Hb2.
  change (wp (YdB_vArIaDiC_pLiSt_TeSt 3) s (fun o _ => o = Normal 0)).
  unfold YdB_vArIaDiC_pLiSt_TeSt.
  change (negb (3 =? expectedargs)) with false. cbn iota.
  wp_run. reflexivity.
Qed.

End RoundTrip.

(** * Further properties of the routine *)


(** ** Acceptance *)

(** A call that earns a diagnostic is not the expected call. *)
Lemma diagnostic_excludes_expected argcnt s line :
  diagnostic argcnt s line -> expected_call argcnt s -> False.
Proof.
  intros Hd (Hcnt & w & p1 & p2 & Hw & Hval & Hp1 & Hb1 & Hp2 & Hb2).
  destruct Hd; simplify_eq; contradiction.
Qed.

(** The expected call is a valid call. *)
Lemma expected_call_valid argcnt s : expected_call argcnt s -> valid_call argcnt s.
Proof.
  intros (Hcnt & w & p1 & p2 & Hw & Hval & Hp1 & Hb1 & Hp2 & Hb2) _.
  destruct (st_va s) as [| w' [| p1' [| p2' rest]]] eqn:Hva;
    cbn [lookup list_lookup] in *; try discriminate.
  simplify_eq. exists w, p1, p2, rest. split; [reflexivity |].
  split.
  - destruct Hb1 as (d & Hd & Hn & Hb). exists d. split; [exact Hd |].
    rewrite Hn. split; [vm_compute; split; discriminate |].
    eexists. exact Hb.
  - destruct Hb2 as (d & Hd & Hn & Hb). exists d. split; [exact Hd |].
    rewrite Hn. split; [vm_compute; split; discriminate |].
    eexists. exact Hb.
Qed.

(** X1. The routine returns 0 exactly on the expected call: three arguments
    announced, an integer that reads as 42, and two references to
    descriptors of used length 10 over the bytes "Buffer one" and
    "Buffer two". *)
Theorem returns_0_iff_expected argcnt s :
  (YdB_vArIaDiC_pLiSt_TeSt argcnt s).1 = Normal 0 <-> expected_call argcnt s.
Proof.
  pose proof (outcome_cases argcnt s) as H. unfold wp in H.
  destruct (YdB_vArIaDiC_pLiSt_TeSt argcnt s) as [[v |] s']; simpl in *.
  - split.
    + intros [= ->]. destruct H as [(_ & _ & He) | [H1 _]]; [exact He | lia].
    + intros He. destruct H as [(-> & _) | (_ & line & Hd & _)]; [reflexivity |].
      destruct (diagnostic_excludes_expected _ _ _ Hd He).
  - split; [discriminate |].
    intros He. destruct (H (expected_call_valid _ _ He)).
Qed.

(** X6. A call whose two descriptors have the same buffer address, and in
    particular a call that passes one descriptor twice, never returns 0: the
    two expected texts differ. *)
Theorem shared_bytes_never_accepted argcnt s p1 p2 d1 d2 :
  st_va s !! 1%nat = Some p1 ->
  st_va s !! 2%nat = Some p2 ->
  descs (st_heap s) !! p1 = Some d1 ->
  descs (st_heap s) !! p2 = Some d2 ->
  buf_addr d1 = buf_addr d2 ->
  (YdB_vArIaDiC_pLiSt_TeSt argcnt s).1 <> Normal 0.
Proof.
  intros Hp1 Hp2 Hd1 Hd2 Haddr Hret.
  pose proof (outcome_cases argcnt s) as H. unfold wp in H.
  rewrite Hret in H. cbn iota in H.
  destruct H as [(_ & _ & He) | [H1 _]]; [| lia].
  destruct He as (_ & w & q1 & q2 & _ & _ & Hq1 & Hb1 & Hq2 & Hb2).
  simplify_eq.
  destruct Hb1 as (d & Hd & _ & Hb). destruct Hb2 as (d' & Hd' & _ & Hb').
  simplify_eq. rewrite Haddr in Hb. simpl in Hb, Hb'. 
  rewrite Hb in Hb'. discriminate.
Qed.

Lemma shared_bytes_never_accepted_witness :
  (YdB_vArIaDiC_pLiSt_TeSt 3 aliased_call).1 <> Normal 0.
Proof.
  apply (shared_bytes_never_accepted 3 aliased_call 4096 4096
           (mk_buffer 64 10 8192) (mk_buffer 64 10 8192)).
  - reflexivity.
  - reflexivity.
  - vm_compute. reflexivity.
  - vm_compute. reflexivity.
  - reflexivity.
Defined.

(** ** The checks stop at the first failure *)

(** X2. When the integer is not 42 the routine returns 1 with the value
    diagnostic after fetching the first slot only: the other slots are not
    fetched and no descriptor is dereferenced, so what they hold, valid or
    not, does not matter. *)
Theorem wrong_integer_stops_at_first_slot s w :
  st_va s !! 0%nat = Some w ->
  to_int32 w <> expectedval ->
  let r := YdB_vArIaDiC_pLiSt_TeSt 3 s in
  r.1 = Normal 1 /\
  st_out r.2 = st_out s +:+ value_diag (to_int32 w) /\
  st_trace r.2 = st_trace s ++ [EvVaArg 0].
Proof.
  intros Hw Hne r. subst r.
  change (wp (YdB_vArIaDiC_pLiSt_TeSt 3) s
            (fun o s' => o = Normal 1 /\
                         st_out s' = st_out s +:+ value_diag (to_int32 w) /\
                         st_trace s' = st_trace s ++ [EvVaArg 0])).
  unfold YdB_vArIaDiC_pLiSt_TeSt.
  change (negb (3 =? expectedargs)) with false. cbn iota.
  wp_all.
  all: try (exfalso; apply Hne, value_test_passed; assumption).
  rewrite app_nil_r. repeat split.
Qed.

Lemma wrong_integer_stops_at_first_slot_witness :
  let r := YdB_vArIaDiC_pLiSt_TeSt 3 garbage_call in
  r.1 = Normal 1 /\
  st_out r.2 = st_out garbage_call +:+ value_diag (to_int32 7) /\
  st_trace r.2 = st_trace garbage_call ++ [EvVaArg 0].
Proof.
  apply (wrong_integer_stops_at_first_slot garbage_call 7).
  - reflexivity.
  - vm_compute. discriminate.
Defined.

Section UsedBytes.

Variables (b : gmap Z ascii) (d : ydb_buffer_t) (y : string).
Hypothesis Hy : read_bytes b (buf_addr d) (Z.to_nat (len_used d)) = Some y.

Lemma str_take_all txt : str_take (String.length txt) txt = txt.
Proof. induction txt as [| c txt IH]; simpl; [reflexivity | rewrite IH; reflexivity]. Qed.

(** [%.*s] over the used bytes shows them up to their first NUL. *)
Lemma read_str_used :
  read_str b (buf_addr d) (Z.to_nat (len_used d)) = Some (cut_nul y).
Proof.
  rewrite (read_str_of_read_bytes b _ _ _ (Z.to_nat (len_used d)) Hy) by lia.
  rewrite <- (read_bytes_length b _ _ _ Hy), str_take_all. reflexivity.
Qed.

(** Once the length test has passed, the bytes [memcmp] compares are the
    used bytes. *)
Lemma compared_bytes_used expected y' :
  negb (len_used d =? strlen expected) = false ->
  read_bytes b (buf_addr d) (String.length expected) = y' ->
  y' = Some y.
Proof.
  intros Hlen <-. apply negb_false_iff, Z.eqb_eq in Hlen.
  rewrite Hlen in Hy. unfold strlen in Hy. rewrite Nat2Z.id in Hy. exact Hy.
Qed.

Lemma bytes_match_equal expected :
  negb (len_used d =? strlen expected) = false ->
  negb (0 =? compare_bytes expected y) = false ->
  y = expected.
Proof.
  intros Hlen Hcmp. apply negb_false_iff, Z.eqb_eq in Hlen.
  apply negb_false_iff, Z.eqb_eq in Hcmp.
  symmetry. apply compare_bytes_eq; [| symmetry; exact Hcmp].
  pose proof (read_bytes_length b _ _ _ Hy) as Hn.
  unfold strlen in Hlen. lia.
Qed.

Lemma precision_in_range :
  0 <= len_used d <= INT_MAX ->
  (0 <=? len_used d) && (len_used d <=? INT_MAX) = true.
Proof. intros H. apply andb_true_iff. split; apply Z.leb_le; lia. Qed.

End UsedBytes.

(** Bring what a path has found about a buffer in line with what is known
    of its used bytes. *)
Ltac used_bytes Hd Hy Hrange :=
  repeat match goal with
    | H : read_str _ _ _ = _ |- _ =>
        rewrite (read_str_used _ _ _ Hy) in H;
        first [discriminate | injection H as <-]
    | H : (0 <=? _) && (_ <=? INT_MAX) = false |- _ =>
        rewrite (precision_in_range _ Hrange) in H; discriminate
    | Hl : negb (len_used _ =? strlen ?e) = false,
      H : read_bytes _ _ (String.length ?e) = _ |- _ =>
        apply (compared_bytes_used _ _ _ Hy e _ Hl) in H;
        first [discriminate | injection H as ->]
    end.

(** X3. With the count and the integer right, a first buffer whose used bytes
    are not "Buffer one", by length or by content, makes the routine return
    1 and print the Buffer1 diagnostic with those bytes up to their first
    NUL.  The third slot is not fetched and no descriptor but the first is
    dereferenced. *)
Theorem buffer_one_mismatch_reported s w p d y :
  st_va s !! 0%nat = Some w ->
  to_int32 w = expectedval ->
  st_va s !! 1%nat = Some p ->
  descs (st_heap s) !! p = Some d ->
  0 <= len_used d <= INT_MAX ->
  read_bytes (bytes (st_heap s)) (buf_addr d) (Z.to_nat (len_used d)) = Some y ->
  y <> expectedbuf1 ->
  let r := YdB_vArIaDiC_pLiSt_TeSt 3 s in
  r.1 = Normal 1 /\
  st_out r.2 = st_out s +:+ buffer1_diag (cut_nul y) /\
  exists evs, st_trace r.2 = st_trace s ++ evs /\ Forall (confined 2 [p]) evs.
Proof.
  intros Hw Hval Hp Hd Hrange Hy Hne r. subst r.
  change (wp (YdB_vArIaDiC_pLiSt_TeSt 3) s
            (fun o s' =>
               o = Normal 1 /\
               st_out s' = st_out s +:+ buffer1_diag (cut_nul y) /\
               exists evs, st_trace s' = st_trace s ++ evs /\
                           Forall (confined 2 [p]) evs)).
  unfold YdB_vArIaDiC_pLiSt_TeSt.
  change (negb (3 =? expectedargs)) with false. cbn iota.
  wp_all.
  all: try (match goal with
            | H : negb (expectedval =? _) = true |- _ =>
                rewrite Hval in H; discriminate
            end).
  all: used_bytes Hd Hy Hrange.
  all: try (exfalso; apply Hne;
            eapply bytes_match_equal; eassumption).
  all: split; [reflexivity |]; split; [reflexivity |].
  all: rewrite <- ?app_assoc; eexists; split; [reflexivity |].
  all: cbn [app]; repeat apply Forall_cons_2; try apply Forall_nil_2.
  all: cbn [confined]; first [lia | constructor | exact I].
Qed.

Lemma buffer_one_mismatch_reported_witness :
  let r := YdB_vArIaDiC_pLiSt_TeSt 3 short_one_state in
  r.1 = Normal 1 /\
  st_out r.2 = st_out short_one_state +:+ buffer1_diag (cut_nul "Buf") /\
  exists evs, st_trace r.2 = st_trace short_one_state ++ evs /\
              Forall (confined 2 [4096]) evs.
Proof.
  apply (buffer_one_mismatch_reported short_one_state (to_uint64 42) 4096
           (mk_buffer 64 3 8192) "Buf").
  - reflexivity.
  - reflexivity.
  - reflexivity.
  - vm_compute. reflexivity.
  - unfold INT_MAX. simpl. lia.
  - vm_compute. reflexivity.
  - discriminate.
Defined.

(** What a path has found about a buffer that holds the expected text. *)
Ltac expected_bytes d1 Hn1 Hb1 :=
  try (first [discriminate Hb1 | injection Hb1 as ->]);
  repeat match goal with
    | H : negb (len_used d1 =? _) = true |- _ =>
        rewrite Hn1 in H; discriminate
    | H : negb (0 =? compare_bytes expectedbuf1 expectedbuf1) = true |- _ =>
        vm_compute in H; discriminate
    end.

(** X4. With the count, the integer and the first buffer right, a second
    buffer whose used bytes are not "Buffer two", by length or by content,
    makes the routine return 1 and print the Buffer2 diagnostic with those
    bytes up to their first NUL. *)
Theorem buffer_two_mismatch_reported s w p1 p d y :
  st_va s !! 0%nat = Some w ->
  to_int32 w = expectedval ->
  st_va s !! 1%nat = Some p1 ->
  holds (st_heap s) p1 (strlen expectedbuf1) expectedbuf1 ->
  st_va s !! 2%nat = Some p ->
  descs (st_heap s) !! p = Some d ->
  0 <= len_used d <= INT_MAX ->
  read_bytes (bytes (st_heap s)) (buf_addr d) (Z.to_nat (len_used d)) = Some y ->
  y <> expectedbuf2 ->
  let r := YdB_vArIaDiC_pLiSt_TeSt 3 s in
  r.1 = Normal 1 /\
  st_out r.2 = st_out s +:+ buffer2_diag (cut_nul y).
Proof.
  intros Hw Hval Hp1 (d1 & Hd1 & Hn1 & Hb1) Hp Hd Hrange Hy Hne r. subst r.
  change (wp (YdB_vArIaDiC_pLiSt_TeSt 3) s
            (fun o s' =>
               o = Normal 1 /\
               st_out s' = st_out s +:+ buffer2_diag (cut_nul y))).
  unfold YdB_vArIaDiC_pLiSt_TeSt.
  change (negb (3 =? expectedargs)) with false. cbn iota.
  wp_all.
  all: try (match goal with
            | H : negb (expectedval =? _) = true |- _ =>
                rewrite Hval in H; discriminate
            end).
  all: expected_bytes d1 Hn1 Hb1.
  all: used_bytes Hd Hy Hrange.
  all: try (exfalso; apply Hne;
            eapply bytes_match_equal; eassumption).
  all: split; reflexivity.
Qed.

Lemma buffer_two_mismatch_reported_witness :
  let r := YdB_vArIaDiC_pLiSt_TeSt 3 short_two_state in
  r.1 = Normal 1 /\
  st_out r.2 = st_out short_two_state +:+ buffer2_diag (cut_nul "Buffer tw").
Proof.
  apply (buffer_two_mismatch_reported short_two_state (to_uint64 42) 4096 4112
           (mk_buffer 64 9 8256) "Buffer tw").
  - reflexivity.
  - reflexivity.
  - reflexivity.
  - exists (mk_buffer 64 10 8192). repeat split; vm_compute; reflexivity.
  - reflexivity.
  - vm_compute. reflexivity.
  - unfold INT_MAX. simpl. lia.
  - vm_compute. reflexivity.
  - discriminate.
Defined.

(** ** Calling again *)

Section Replay.

Lemma append_nil_r (x : string) : x +:+ "" = x.
Proof.
  induction x as [| c x IH]; [reflexivity |].
  change (String c (x +:+ "") = String c x). rewrite IH. reflexivity.
Qed.

Lemma append_assoc (x y z : string) : (x +:+ y) +:+ z = x +:+ (y +:+ z).
Proof.
  induction x as [| c x IH]; [reflexivity |].
  change (String c ((x +:+ y) +:+ z) = String c (x +:+ (y +:+ z))).
  rewrite IH. reflexivity.
Qed.

Lemma replays_ret {A} (a : A) : replays (ret a).
Proof.
  intros s s' H. split; [reflexivity |]. split; [exact H |].
  exists "". simpl. rewrite !append_nil_r. split; reflexivity.
Qed.

Lemma replays_bind {A B} (c : M A) (k : A -> M B) :
  replays c -> (forall a, replays (k a)) -> replays (bind c k).
Proof.
  intros Hc Hk s s' H. unfold bind.
  destruct (Hc s s' H) as (Ho & Hs & txt & Hout & Hout').
  destruct (c s) as [[a |] s1], (c s') as [[a' |] s1']; simpl in *;
    try discriminate.
  - injection Ho as <-.
    destruct (Hk a s1 s1' Hs) as (Ho2 & Hs2 & txt2 & Hout2 & Hout2').
    split; [exact Ho2 |]. split; [exact Hs2 |].
    exists (txt +:+ txt2).
    rewrite Hout2, Hout2', Hout, Hout', !append_assoc. split; reflexivity.
  - split; [reflexivity |]. split; [exact Hs |].
    exists txt. split; assumption.
Qed.

Lemma replays_if {A} (b : bool) (c1 c2 : M A) :
  replays c1 -> replays c2 -> replays (if b then c1 else c2).
Proof. destruct b; auto. Qed.

Lemma replays_when b c : replays c -> replays (when b c).
Proof. intros Hc. apply replays_if; [exact Hc | apply replays_ret]. Qed.

Lemma replays_c_or a b : replays a -> replays b -> replays (c_or a b).
Proof.
  intros Ha Hb. apply replays_bind; [exact Ha |].
  intros x. apply replays_if; [apply replays_ret | exact Hb].
Qed.

(** A step that prints nothing and only extends the log. *)
Lemma replays_silent {A} (c : M A) :
  (forall s s', same_inputs s s' ->
     (c s).1 = (c s').1 /\
     same_inputs (c s).2 (c s').2 /\
     st_out (c s).2 = st_out s /\ st_out (c s').2 = st_out s') ->
  replays c.
Proof.
  intros Hc s s' H. destruct (Hc s s' H) as (Ho & Hs & Hout & Hout').
  split; [exact Ho |]. split; [exact Hs |].
  exists "". rewrite Hout, Hout', !append_nil_r. split; reflexivity.
Qed.

Lemma replays_va_arg_word var : replays (va_arg_word var).
Proof.
  apply replays_silent. intros s s' [Hva Hheap]. unfold va_arg_word.
  rewrite <- Hva. destruct (st_va s !! var); simpl; repeat split; assumption.
Qed.

Lemma replays_va_arg_int var : replays (va_arg_int var).
Proof.
  apply replays_bind; [apply replays_va_arg_word |].
  intros [w var']. apply replays_ret.
Qed.

Lemma replays_load p f : replays (load p f).
Proof.
  apply replays_silent. intros s s' [Hva Hheap]. unfold load.
  rewrite <- Hheap.
  destruct (descs (st_heap s) !! p); simpl; repeat split; assumption.
Qed.

Lemma replays_memcmp lit a n : replays (memcmp lit a n).
Proof.
  apply replays_silent. intros s s' [Hva Hheap]. unfold memcmp.
  rewrite <- Hheap.
  destruct (lit_bytes lit (Z.to_nat n)); [| repeat split; assumption].
  destruct (read_bytes _ a _); simpl; repeat split; assumption.
Qed.

Lemma replays_printf fmt args : replays (printf fmt args).
Proof.
  intros s s' [Hva Hheap]. unfold printf. rewrite <- Hheap.
  destruct (format _ _ _) as [[txt evs] |]; simpl.
  - split; [reflexivity |]. split; [split; assumption |].
    exists txt. split; reflexivity.
  - split; [reflexivity |]. split; [split; assumption |].
    exists "". rewrite !append_nil_r. split; reflexivity.
Qed.

End Replay.

Create HintDb replays discriminated.

#[local] Hint Resolve replays_ret replays_va_arg_word replays_va_arg_int
  replays_load replays_memcmp replays_printf : replays.

Ltac replays_tac :=
  repeat first
    [ apply replays_bind; [| let x := fresh "x" in
                             intros x;
                             try lazymatch type of x with
                                 | (_ * _)%type => destruct x
                                 end]
    | apply replays_if
    | apply replays_when
    | apply replays_c_or
    | solve [unfold va_start, va_arg_ptr; auto with replays] ].

Lemma YdB_vArIaDiC_pLiSt_TeSt_replays argcnt :
  replays (YdB_vArIaDiC_pLiSt_TeSt argcnt).
Proof. unfold YdB_vArIaDiC_pLiSt_TeSt. replays_tac. Qed.

(** X5. Calling the routine again on the state the first call leaves gives
    the same outcome and prints the same text once more: a call changes
    nothing the routine looks at. *)
Theorem second_call_repeats_first argcnt s :
  let r1 := YdB_vArIaDiC_pLiSt_TeSt argcnt s in
  let r2 := YdB_vArIaDiC_pLiSt_TeSt argcnt r1.2 in
  r2.1 = r1.1 /\
  exists txt,
    st_out r1.2 = st_out s +:+ txt /\ st_out r2.2 = st_out r1.2 +:+ txt.
Proof.
  intros r1 r2. subst r1 r2.
  destruct (YdB_vArIaDiC_pLiSt_TeSt_read_only argcnt s) as [Hva Hheap].
  destruct (YdB_vArIaDiC_pLiSt_TeSt_replays argcnt s
              (YdB_vArIaDiC_pLiSt_TeSt argcnt s).2)
    as (Ho & _ & txt & Hout & Hout').
  { split; symmetry; assumption. }
  split; [symmetry; exact Ho |].
  exists txt. split; assumption.
Qed.

(** ** Bytes outside the used ranges *)

Section UsedBytesOnly.

Variables (s s' : state).
Hypothesis Hsame : same_used_bytes s s'.

Lemma same_used_bytes_sym : same_used_bytes s' s.
Proof.
  destruct Hsame as (Hva & Hd & Hout & Hb).
  repeat split; try (symmetry; assumption).
  intros p d Hp. symmetry. apply (Hb p). rewrite Hd. exact Hp.
Qed.

Lemma holds_transport p expected :
  holds (st_heap s) p (strlen expected) expected ->
  holds (st_heap s') p (strlen expected) expected.
Proof.
  destruct Hsame as (_ & Hd & _ & Hb).
  intros (d & Hp & Hn & Hbytes). exists d.
  split; [rewrite <- Hd; exact Hp |]. split; [exact Hn |].
  specialize (Hb p d Hp). rewrite Hn in Hb. unfold strlen in Hb.
  rewrite Nat2Z.id in Hb. rewrite <- Hb. exact Hbytes.
Qed.

Lemma valid_buffer_transport p :
  valid_buffer (st_heap s) p -> valid_buffer (st_heap s') p.
Proof.
  destruct Hsame as (_ & Hd & _ & Hb).
  intros (d & Hp & Hrange & Hread). exists d.
  split; [rewrite <- Hd; exact Hp |]. split; [exact Hrange |].
  rewrite <- (Hb p d Hp). exact Hread.
Qed.

Lemma valid_call_transport argcnt :
  valid_call argcnt s -> valid_call argcnt s'.
Proof.
  intros Hv Hcnt. destruct (Hv Hcnt) as (w & p1 & p2 & rest & Hva & H1 & H2).
  exists w, p1, p2, rest.
  destruct Hsame as (Hva' & _). rewrite <- Hva'.
  split; [exact Hva |].
  split; apply valid_buffer_transport; assumption.
Qed.

Lemma expected_call_transport argcnt :
  expected_call argcnt s -> expected_call argcnt s'.
Proof.
  intros (Hcnt & w & p1 & p2 & Hw & Hval & Hp1 & Hb1 & Hp2 & Hb2).
  pose proof Hsame as (Hva & _).
  split; [exact Hcnt |]. exists w, p1, p2. rewrite <- Hva.
  repeat split; try assumption; apply holds_transport; assumption.
Qed.

(** On a valid buffer, what [%.*s] shows is fixed by the used bytes. *)
Lemma read_str_transport p d :
  valid_buffer (st_heap s) p ->
  descs (st_heap s) !! p = Some d ->
  read_str (bytes (st_heap s')) (buf_addr d) (Z.to_nat (len_used d))
  = read_str (bytes (st_heap s)) (buf_addr d) (Z.to_nat (len_used d)).
Proof.
  destruct Hsame as (_ & _ & _ & Hb).
  intros (d' & Hp' & _ & [y Hy]) Hp. assert (d' = d) as -> by congruence.
  rewrite (read_str_used _ _ _ Hy).
  rewrite (Hb p d Hp) in Hy. rewrite (read_str_used _ _ _ Hy). reflexivity.
Qed.

End UsedBytesOnly.

Lemma diagnostic_transport argcnt s s' line :
  same_used_bytes s s' ->
  valid_call argcnt s ->
  diagnostic argcnt s line -> diagnostic argcnt s' line.
Proof.
  intros Hsame Hv Hdiag.
  pose proof (same_used_bytes_sym s s' Hsame) as Hsym.
  pose proof Hsame as (Hva & Hd & _).
  destruct Hdiag as [Hne | w Hcnt Hw Hne | w p d rcv Hcnt Hw Hval Hp Hdp Hstr Hno
                    | w p1 p d rcv Hcnt Hw Hval Hp1 Hb1 Hp Hdp Hstr Hno].
  - apply diag_count. exact Hne.
  - apply diag_value; [exact Hcnt | rewrite <- Hva; exact Hw | exact Hne].
  - destruct (Hv Hcnt) as (w0 & q1 & q2 & rest & Hlist & Hv1 & Hv2).
    rewrite Hlist in Hp. cbn [lookup list_lookup] in Hp. injection Hp as ->.
    eapply diag_buffer1; try eassumption.
    + rewrite <- Hva. exact Hw.
    + rewrite <- Hva, Hlist. reflexivity.
    + rewrite <- Hd. exact Hdp.
    + rewrite (read_str_transport s s' Hsame p d Hv1 Hdp). exact Hstr.
    + intros Hh. apply Hno. apply (holds_transport s' s Hsym). exact Hh.
  - destruct (Hv Hcnt) as (w0 & q1 & q2 & rest & Hlist & Hv1 & Hv2).
    rewrite Hlist in Hp. cbn [lookup list_lookup] in Hp. injection Hp as ->.
    eapply diag_buffer2; try eassumption.
    + rewrite <- Hva. exact Hw.
    + rewrite <- Hva. exact Hp1.
    + apply (holds_transport s s' Hsame). exact Hb1.
    + rewrite <- Hva, Hlist. reflexivity.
    + rewrite <- Hd. exact Hdp.
    + rewrite (read_str_transport s s' Hsame p d Hv2 Hdp). exact Hstr.
    + intros Hh. apply Hno. apply (holds_transport s' s Hsym). exact Hh.
Qed.

(** The checks are tried in one order, so a call earns one diagnostic. *)
Lemma diagnostic_unique argcnt s l1 l2 :
  diagnostic argcnt s l1 -> diagnostic argcnt s l2 -> l1 = l2.
Proof.
  intros H1 H2. destruct H1, H2; simplify_eq; try reflexivity; contradiction.
Qed.

(** X7. For a valid call, the return value and the printed text depend on the
    bytes of the heap only through the used bytes of the descriptors: two
    states with the same save area, descriptors and stdout, whose
    descriptors have the same used bytes, give the same result and output,
    however the heaps differ elsewhere. *)
Theorem only_used_bytes_matter argcnt s s' :
  valid_call argcnt s ->
  same_used_bytes s s' ->
  let r := YdB_vArIaDiC_pLiSt_TeSt argcnt s in
  let r' := YdB_vArIaDiC_pLiSt_TeSt argcnt s' in
  r.1 = r'.1 /\ st_out r.2 = st_out r'.2.
Proof.
  intros Hv Hsame r r'. subst r r'.
  pose proof (valid_call_transport s s' Hsame argcnt Hv) as Hv'.
  pose proof (same_used_bytes_sym s s' Hsame) as Hsym.
  pose proof Hsame as (_ & _ & Hout & _).
  pose proof (outcome_cases argcnt s) as H. unfold wp in H.
  pose proof (outcome_cases argcnt s') as H'. unfold wp in H'.
  destruct (YdB_vArIaDiC_pLiSt_TeSt argcnt s) as [[v |] s1]; simpl in *;
    [| contradiction].
  destruct (YdB_vArIaDiC_pLiSt_TeSt argcnt s') as [[v' |] s1']; simpl in *;
    [| contradiction].
  destruct H as [(-> & Ho & He) | (-> & line & Hd & Ho)],
           H' as [(-> & Ho' & He') | (-> & line' & Hd' & Ho')].
  - split; [reflexivity | congruence].
  - destruct (diagnostic_excludes_expected argcnt s' line' Hd').
    apply (expected_call_transport s s' Hsame). exact He.
  - destruct (diagnostic_excludes_expected argcnt s line Hd).
    apply (expected_call_transport s' s Hsym). exact He'.
  - split; [reflexivity |].
    pose proof (diagnostic_transport argcnt s s' line Hsame Hv Hd) as Hd2.
    rewrite Ho, Ho', Hout. f_equal.
    exact (diagnostic_unique argcnt s' line line' Hd2 Hd').
Qed.

Lemma padded_state_same_used_bytes : same_used_bytes go_test_state padded_state.
Proof.
  split; [reflexivity |]. split; [reflexivity |]. split; [reflexivity |].
  intros p d. unfold go_test_state, test_call, test_heap. cbn [st_heap descs].
  destruct (decide (p = 4096)) as [-> | Hp1].
  - rewrite lookup_insert_eq. intros [= <-]. vm_compute. reflexivity.
  - rewrite lookup_insert_ne by congruence.
    destruct (decide (p = 4112)) as [-> | Hp2].
    + rewrite lookup_insert_eq. intros [= <-]. vm_compute. reflexivity.
    + rewrite lookup_insert_ne by congruence. rewrite lookup_empty.
      discriminate.
Qed.

Lemma only_used_bytes_matter_witness :
  let r := YdB_vArIaDiC_pLiSt_TeSt 3 go_test_state in
  let r' := YdB_vArIaDiC_pLiSt_TeSt 3 padded_state in
  r.1 = r'.1 /\ st_out r.2 = st_out r'.2.
Proof.
  apply (only_used_bytes_matter 3 go_test_state padded_state).
  - exact go_test_state_valid.
  - exact padded_state_same_used_bytes.
Defined.
